(** * azul: XML tree walkers and geometry buffers of [src/Parser.hpp]

    A shallow embedding of the four pugixml tree walkers declared in
    [Parser.hpp] ([PointsWalker], [RingsWalker], [PolygonsWalker],
    [ObjectsWalker]), of the library calls they rely on
    ([std::istringstream >> std::string], [std::stof],
    [pugi::xml_node::traverse], [pugi::xml_node::child_value]) and of the
    parsed-object data model, followed by the properties of the
    specification that concern them. *)

From Stdlib Require Import ZArith List String Ascii Lia.
From Stdlib Require Import Floats.SpecFloat.
From stdpp Require Import gmap strings list.

Local Open Scope string_scope.
Local Open Scope list_scope.

Set Warnings "-register-all".

(** ** Characters and C strings *)

Module CChar.

Definition code (c : ascii) : nat := nat_of_ascii c.

(** [std::isspace] in the classic "C" locale: space, \t, \n, \v, \f, \r. *)
Definition isspace (c : ascii) : bool :=
  (code c =? 32)%nat || ((9 <=? code c)%nat && (code c <=? 13)%nat).

Definition isdigit (c : ascii) : bool :=
  (48 <=? code c)%nat && (code c <=? 57)%nat.

Definition digit_value (c : ascii) : Z := (Z.of_nat (code c) - 48)%Z.

(** Value of a hexadecimal digit, [None] for any other character. *)
Definition xdigit_value (c : ascii) : option Z :=
  let n := code c in
  if isdigit c then Some (Z.of_nat n - 48)%Z
  else if (65 <=? n)%nat && (n <=? 70)%nat then Some (Z.of_nat n - 55)%Z
  else if (97 <=? n)%nat && (n <=? 102)%nat then Some (Z.of_nat n - 87)%Z
  else None.

Definition tolower (c : ascii) : ascii :=
  let n := code c in
  if (65 <=? n)%nat && (n <=? 90)%nat then ascii_of_nat (n + 32) else c.

(** [strchr(s, c)] followed by [+1]: the text after the first occurrence
    of [c], [None] when [strchr] returns [NULL]. *)
Fixpoint after_first (c : ascii) (s : string) : option string :=
  match s with
  | EmptyString => None
  | String a s' => if Ascii.eqb a c then Some s' else after_first c s'
  end.

(** [strcmp(a, b) == 0]. *)
Definition streq (a b : string) : bool := String.eqb a b.

End CChar.

(** ** [std::istringstream]: whitespace-separated extraction

    Every [iss >> substring] skips leading whitespace and then reads the
    maximal run of non-whitespace characters.  The extraction that finds
    only whitespace before the end of the stream leaves [substring] empty
    and sets [failbit], which ends the [do ... while (iss)] loop; so the
    loop body sees, in order, exactly the words of the text and then one
    empty string.  [words] computes those words; [extract] is a single
    extraction. *)

Module IStream.

(** One [iss >> substring]: the extracted string and what is left of the
    stream.  The extracted string is empty exactly when only whitespace
    was left, which is when the extraction fails. *)
Fixpoint skipws (s : string) : string :=
  match s with
  | EmptyString => EmptyString
  | String c s' => if CChar.isspace c then skipws s' else s
  end.

Fixpoint token (s : string) : string * string :=
  match s with
  | EmptyString => (EmptyString, EmptyString)
  | String c s' =>
      if CChar.isspace c then (EmptyString, s)
      else let '(t, r) := token s' in (String c t, r)
  end.

Definition extract (s : string) : string * string := token (skipws s).

Fixpoint words_from (cur : string) (s : string) : list string :=
  match s with
  | EmptyString => if CChar.streq cur EmptyString then [] else [cur]
  | String c s' =>
      if CChar.isspace c
      then (if CChar.streq cur EmptyString then words_from EmptyString s'
            else cur :: words_from EmptyString s')
      else words_from (cur +:+ String c EmptyString) s'
  end.

Definition words (s : string) : list string := words_from EmptyString s.

End IStream.

(** ** [std::stof]

    [std::stof(str)] calls [strtof] on [str.c_str()], throws
    [std::invalid_argument] when no conversion could be performed and
    [std::out_of_range] when [strtof] reports [ERANGE]; the characters
    after the longest prefix that [strtof] accepts are ignored (the [idx]
    argument is null here).  Values are IEEE 754 binary32, written with the
    standard library's [spec_float] at precision 24 and maximal exponent
    128; decimal input is rounded to nearest, ties to even. *)

Module Float32.

Definition prec : Z := 24.
Definition emax : Z := 128.

Definition float := spec_float.

Definition zero : float := S754_zero false.

Definition of_Z_pow2 (m e : Z) : float := binary_normalize prec emax m e false.

(** [m * 10 ^ e10], correctly rounded. *)
Definition of_decimal (m e10 : Z) : float :=
  match m with
  | Z0 => S754_zero false
  | Zpos p =>
      if (0 <=? e10)%Z then binary_normalize prec emax (m * 10 ^ e10)%Z 0 false
      else SFdiv prec emax (S754_finite false p 0)
                 (S754_finite false (Z.to_pos (10 ^ (- e10))%Z) 0)
  | Zneg _ => S754_nan
  end.

Definition with_sign (neg : bool) (f : float) : float :=
  if neg then SFopp f else f.

Definition is_infinite (f : float) : bool :=
  match f with S754_infinity _ => true | _ => false end.

(** The exponent range of binary64 at the precision of binary32: every
    magnitude from [2 ^ -127] on is rounded there at the full precision
    of 24 bits, as if the exponent range of binary32 were unbounded
    below. *)
Definition emax_wide : Z := 1024.

(** [num / den] rounded to nearest, ties to even, in the format of
    maximal exponent [emax']. *)
Definition round_fraction (emax' : Z) (num den : positive) : float :=
  SFdiv prec emax' (S754_finite false num 0) (S754_finite false den 0).

(** [m * 2 ^ e < 2 ^ -126]: below the least normal number. *)
Definition below_least_normal (m : positive) (e : Z) : bool :=
  (e <? -126)%Z && (Z.pos m <? 2 ^ (-126 - e))%Z.

(** The magnitude of [f] is [num / den] exactly. *)
Definition represents (f : float) (num den : positive) : bool :=
  match f with
  | S754_finite _ m e =>
      if (0 <=? e)%Z then (Z.pos num =? Z.pos m * 2 ^ e * Z.pos den)%Z
      else (Z.pos num * 2 ^ (- e) =? Z.pos m * Z.pos den)%Z
  | _ => false
  end.

(** [num / den < 2 ^ -126]. *)
Definition tiny_before_rounding (num den : positive) : bool :=
  (Z.pos num * 2 ^ 126 <? Z.pos den)%Z.

(** [num / den], rounded to 24 bits without a lower bound on the
    exponent, is still below [2 ^ -126]. *)
Definition tiny_after_rounding (num den : positive) : bool :=
  match round_fraction emax_wide num den with
  | S754_zero _ => true
  | S754_finite _ m e => below_least_normal m e
  | _ => false
  end.

(** Underflow in the sense of IEEE 754: [f], the rounded value of
    [num / den], is not exact and [num / den] is tiny; [after] tells
    whether tininess is detected after rounding or before. *)
Definition underflows (after : bool) (f : float) (num den : positive) : bool :=
  negb (represents f num den)
  && (if after then tiny_after_rounding num den
      else tiny_before_rounding num den).

End Float32.

Inductive stof_result :=
| stof_value (f : Float32.float)
| stof_invalid_argument
| stof_out_of_range.

Module Strtof.

Import CChar.

Fixpoint skip_space (l : list ascii) : list ascii :=
  match l with
  | c :: l' => if isspace c then skip_space l' else l
  | [] => []
  end.

(** Reads a run of decimal digits: accumulated value, number of digits
    read, remaining characters. *)
Fixpoint digits (acc : Z) (cnt : Z) (l : list ascii) : Z * Z * list ascii :=
  match l with
  | c :: l' =>
      if isdigit c then digits (10 * acc + digit_value c)%Z (cnt + 1)%Z l'
      else (acc, cnt, l)
  | [] => (acc, cnt, [])
  end.

Fixpoint xdigits (acc : Z) (cnt : Z) (l : list ascii) : Z * Z * list ascii :=
  match l with
  | c :: l' =>
      match xdigit_value c with
      | Some v => xdigits (16 * acc + v)%Z (cnt + 1)%Z l'
      | None => (acc, cnt, l)
      end
  | [] => (acc, cnt, [])
  end.

(** Optional sign: [true] for a minus. *)
Definition sign (l : list ascii) : bool * list ascii :=
  match l with
  | "-"%char :: l' => (true, l')
  | "+"%char :: l' => (false, l')
  | _ => (false, l)
  end.

(** Optional exponent part introduced by the letter [e] (either case):
    taken only when at least one digit follows the optional sign. *)
Definition exponent (e : ascii) (l : list ascii) : Z :=
  match l with
  | c :: l' =>
      if Ascii.eqb (tolower c) e then
        let '(neg, l'') := sign l' in
        let '(v, cnt, _) := digits 0 0 l'' in
        if (0 <? cnt)%Z then (if neg then - v else v)%Z else 0%Z
      else 0%Z
  | [] => 0%Z
  end.

Definition lower_prefix (p : string) (l : list ascii) : bool :=
  let pl := list_ascii_of_string p in
  bool_decide (map tolower (firstn (List.length pl) l) = pl).

(** The digits and the exponent of the longest accepted prefix: the
    value is [m * 10 ^ e] for the decimal form and [m * 2 ^ e] for the
    hexadecimal one; [None] when no prefix is accepted. *)
Definition decimal_parts (l : list ascii) : option (Z * Z) :=
  let '(ip, n1, r1) := digits 0 0 l in
  let '(m, n2, r2) :=
    match r1 with
    | "."%char :: r => digits ip 0 r
    | _ => (ip, 0%Z, r1)
    end in
  if (0 <? n1 + n2)%Z then Some (m, (exponent "e" r2 - n2)%Z) else None.

Definition hexadecimal_parts (l : list ascii) : option (Z * Z) :=
  match l with
  | "0"%char :: x :: l' =>
      if Ascii.eqb (tolower x) "x" then
        let '(ip, n1, r1) := xdigits 0 0 l' in
        let '(m, n2, r2) :=
          match r1 with
          | "."%char :: r => xdigits ip 0 r
          | _ => (ip, 0%Z, r1)
          end in
        if (0 <? n1 + n2)%Z then Some (m, (exponent "p" r2 - 4 * n2)%Z)
        else None
      else None
  | _ => None
  end.

(** The magnitude denoted by the longest accepted prefix together with
    whether the mathematical value is non-zero; [None] when no prefix is
    accepted. *)
Definition decimal (l : list ascii) : option (Float32.float * bool) :=
  match decimal_parts l with
  | Some (m, e) => Some (Float32.of_decimal m e, negb (m =? 0)%Z)
  | None => None
  end.

Definition hexadecimal (l : list ascii) : option (Float32.float * bool) :=
  match hexadecimal_parts l with
  | Some (m, e) => Some (Float32.of_Z_pow2 m e, negb (m =? 0)%Z)
  | None => None
  end.

(** [m * base ^ e] as a fraction of two positive integers; [None] for
    zero. *)
Definition fraction (base m e : Z) : option (positive * positive) :=
  match m with
  | Zpos p =>
      Some (if (0 <=? e)%Z then (Z.to_pos (m * base ^ e), 1%positive)
            else (p, Z.to_pos (base ^ (- e))))
  | _ => None
  end.

(** The mathematical value of the number that [subject_of] converts, when
    it is not zero. *)
Definition exact_of (l : list ascii) : option (positive * positive) :=
  match hexadecimal_parts l with
  | Some (m, e) => fraction 2 m e
  | None =>
      match decimal_parts l with
      | Some (m, e) => fraction 10 m e
      | None => None
      end
  end.

Inductive subject :=
| Number (magnitude : Float32.float) (nonzero : bool)
| Infinity
| NaN
| NoConversion.

Definition subject_of (l : list ascii) : subject :=
  if lower_prefix "inf" l then Infinity
  else if lower_prefix "nan" l then NaN
  else match hexadecimal l with
       | Some (f, nz) => Number f nz
       | None =>
           match decimal l with
           | Some (f, nz) => Number f nz
           | None => NoConversion
           end
       end.

End Strtof.

Section Stof.

(** [strtof] reports [ERANGE] on overflow and on underflow, that is when
    the result is tiny and not exact: an exactly representable subnormal
    number is converted without an error.  IEEE 754 leaves to the
    implementation whether tininess is detected after rounding or before
    (the two differ only for values that round up to the least normal
    number), and the C library follows the processor here. *)
Variable tininess_after_rounding : bool.

Definition stof (str : string) : stof_result :=
  let '(neg, l) :=
    Strtof.sign (Strtof.skip_space (list_ascii_of_string str)) in
  match Strtof.subject_of l with
  | Strtof.NoConversion => stof_invalid_argument
  | Strtof.Infinity => stof_value (S754_infinity neg)
  | Strtof.NaN => stof_value S754_nan
  | Strtof.Number f _ =>
      if Float32.is_infinite f then stof_out_of_range
      else match Strtof.exact_of l with
           | Some (num, den) =>
               if Float32.underflows tininess_after_rounding f num den
               then stof_out_of_range
               else stof_value (Float32.with_sign neg f)
           | None => stof_value (Float32.with_sign neg f)
           end
  end.

End Stof.

(** ** pugixml: nodes, [child_value], [traverse] *)

Inductive xml_node_type :=
| node_document | node_element | node_pcdata | node_cdata
| node_comment | node_pi | node_declaration | node_doctype.

(** A node with its type, name, value and children in document order.
    [name] is empty for the document, text and comment nodes; [value] is
    empty for elements. *)
Inductive xml_node :=
| XmlNode (type : xml_node_type) (name value : string)
          (children : list xml_node).

Module Xml.

Definition type (n : xml_node) : xml_node_type :=
  let 'XmlNode t _ _ _ := n in t.
Definition name (n : xml_node) : string :=
  let 'XmlNode _ s _ _ := n in s.
Definition value (n : xml_node) : string :=
  let 'XmlNode _ _ v _ := n in v.
Definition children (n : xml_node) : list xml_node :=
  let 'XmlNode _ _ _ cs := n in cs.

Definition element (name : string) (children : list xml_node) : xml_node :=
  XmlNode node_element name EmptyString children.
Definition pcdata (text : string) : xml_node :=
  XmlNode node_pcdata EmptyString text [].

Definition is_text_node (n : xml_node) : bool :=
  match type n with
  | node_pcdata | node_cdata => true
  | _ => false
  end.

(** [xml_node::child_value()]: the value of the first child that is a
    PCDATA or CDATA node, the empty string when there is none. *)
Fixpoint first_text (cs : list xml_node) : string :=
  match cs with
  | [] => EmptyString
  | c :: cs' => if is_text_node c then value c else first_text cs'
  end.

Definition child_value (n : xml_node) : string := first_text (children n).

(** The nodes that [traverse] hands to [for_each], in the order of the
    calls, each with the value [depth()] has during its call: all proper
    descendants of the start node in document order, its children at
    depth 0.  The start node itself is only given to [begin] and [end]. *)
Fixpoint subtree (d : nat) (n : xml_node) : list (nat * xml_node) :=
  let 'XmlNode _ _ _ cs := n in
  (d, n) :: (fix forest (l : list xml_node) : list (nat * xml_node) :=
               match l with
               | [] => []
               | c :: l' => subtree (S d) c ++ forest l'
               end) cs.

Definition forest (d : nat) (l : list xml_node) : list (nat * xml_node) :=
  flat_map (subtree d) l.

Definition visits (start : xml_node) : list (nat * xml_node) :=
  forest 0 (children start).

Definition descendants (start : xml_node) : list xml_node :=
  map snd (visits start).

End Xml.

(** ** Control flow of a walker call *)

Inductive exception :=
| std_out_of_range.

(** What a [for_each] call does to the state [S] it works on: it returns
    [true] (go on) or [false] (stop the traversal), or an exception leaves
    it. *)
Inductive outcome (S : Type) :=
| Returned (go_on : bool) (s : S)
| Raised (e : exception) (s : S).
Arguments Returned {S} go_on s.
Arguments Raised {S} e s.

Module Walker.

(** [xml_node::traverse(walker)] for a walker whose [begin] and [end] are
    the defaults (both return [true]): [for_each] is called on the
    visited nodes in order until it returns [false] or throws. *)
Fixpoint run {S : Type} (for_each : nat -> xml_node -> S -> outcome S)
         (vs : list (nat * xml_node)) (s : S) : outcome S :=
  match vs with
  | [] => Returned true s
  | (d, n) :: vs' =>
      match for_each d n s with
      | Returned true s' => run for_each vs' s'
      | Returned false s' => Returned false s'
      | Raised e s' => Raised e s'
      end
  end.

Definition traverse {S : Type} (for_each : nat -> xml_node -> S -> outcome S)
           (start : xml_node) (s : S) : outcome S :=
  run for_each (Xml.visits start) s.

End Walker.

(** ** The parsed data model *)

Record ParsedPoint := mkParsedPoint {
  coordinates : Float32.float * Float32.float * Float32.float
}.

(** [ParsedPoint()]: value-initialised, all coordinates zero. *)
Definition ParsedPoint_new : ParsedPoint :=
  mkParsedPoint (Float32.zero, Float32.zero, Float32.zero).

(** [p.coordinates[i] = v] for an index below 3. *)
Definition set_coordinate (i : nat) (v : Float32.float) (p : ParsedPoint)
  : ParsedPoint :=
  let '(a, b, c) := coordinates p in
  match i with
  | 0 => mkParsedPoint (v, b, c)
  | 1 => mkParsedPoint (a, v, c)
  | 2 => mkParsedPoint (a, b, v)
  | _ => p
  end.

Definition coordinate_list (p : ParsedPoint) : list Float32.float :=
  let '(a, b, c) := coordinates p in [a; b; c].

Record ParsedRing := mkParsedRing {
  ring_points : list ParsedPoint
}.

Record ParsedPolygon := mkParsedPolygon {
  exteriorRing : ParsedRing;
  interiorRings : list ParsedRing
}.

Record ParsedObject := mkParsedObject {
  type : string;
  id : string;
  attributes : gmap string string;
  polygonsByType : gmap string (list ParsedPolygon);
  trianglesByType : gmap string (list Float32.float);
  edges : list Float32.float
}.

(** Lines written to [std::cout], oldest first. *)
Definition ostream := list string.

(** The namespace-stripped node name both type walkers compute:
    [strchr(node.name(), ':')], and the text after it when it is found. *)
Definition strip_namespace (node_name : string) : string :=
  match CChar.after_first ":" node_name with
  | Some rest => rest
  | None => node_name
  end.

(** ** [PointsWalker] *)

Module PointsWalker.

Record t := mk { points : list ParsedPoint }.

Definition new : t := mk [].

(** [points.back().coordinates[i] = v]. *)
Fixpoint assign_back (i : nat) (v : Float32.float) (l : list ParsedPoint)
  : list ParsedPoint :=
  match l with
  | [] => []
  | [p] => [set_coordinate i v p]
  | p :: l' => p :: assign_back i v l'
  end.

Definition invalid_point_message (substring : string) : string :=
  "Invalid point: " +:+ substring +:+ ". Skipping...".

Definition wrong_number_message : string :=
  "Wrong number of coordinates: not divisible by 3".

Section ForEach.

Variable tininess_after_rounding : bool.

(** The [do ... while (iss)] loop and the check that follows it, over
    the strings the successive extractions produce. *)
Fixpoint read_coordinates (substrings : list string)
         (currentCoordinate : nat) (pts : list ParsedPoint)
         (cout : ostream) : outcome (t * ostream) :=
  match substrings with
  | [] =>
      if negb (currentCoordinate =? 0)%nat
      then Returned true (mk [], cout ++ [wrong_number_message])
      else Returned true (mk pts, cout)
  | substring :: rest =>
      if (0 <? String.length substring)%nat then
        let pts := if (currentCoordinate =? 0)%nat
                   then pts ++ [ParsedPoint_new] else pts in
        match stof tininess_after_rounding substring with
        | stof_value v =>
            read_coordinates rest ((currentCoordinate + 1) mod 3)
                             (assign_back currentCoordinate v pts) cout
        | stof_invalid_argument =>
            Returned true
                     (mk [], cout ++ [invalid_point_message substring])
        | stof_out_of_range =>
            Raised std_out_of_range (mk pts, cout)
        end
      else read_coordinates rest currentCoordinate pts cout
  end.

Definition is_position_list (node : xml_node) : bool :=
  CChar.streq (Xml.name node) "gml:pos"
  || CChar.streq (Xml.name node) "gml:posList".

Definition for_each (depth : nat) (node : xml_node) (s : t * ostream)
  : outcome (t * ostream) :=
  if is_position_list node then
    let coordinates := Xml.child_value node in
    read_coordinates (IStream.words coordinates) 0 (points (fst s)) (snd s)
  else Returned true s.

End ForEach.

End PointsWalker.

(** ** [RingsWalker] *)

Module RingsWalker.

(** [exteriorRing] is a node handle, null ([None]) until assigned. *)
Record t := mk {
  exteriorRing : option xml_node;
  interiorRings : list xml_node
}.

Definition new : t := mk None [].

Definition for_each (depth : nat) (node : xml_node) (w : t) : outcome t :=
  if CChar.streq (Xml.name node) "gml:exterior" then
    Returned true (mk (Some node) (interiorRings w))
  else if CChar.streq (Xml.name node) "gml:interior" then
    Returned true (mk (exteriorRing w) (interiorRings w ++ [node]))
  else Returned true w.

End RingsWalker.

(** ** [PolygonsWalker] *)

Module PolygonsWalker.

(** [depthToStop] has no initialiser: it holds an arbitrary value until
    the first surface-type element is met. *)
Record t := mk {
  polygonsByType : gmap string (list xml_node);
  inDefinedType : string;
  depthToStop : nat
}.

Definition new (indeterminate : nat) : t := mk ∅ EmptyString indeterminate.

Definition is_surface_type (nodeType : string) : bool :=
  CChar.streq nodeType "Door"
  || CChar.streq nodeType "GroundSurface"
  || CChar.streq nodeType "RoofSurface"
  || CChar.streq nodeType "Window".

Definition is_polygon_type (nodeType : string) : bool :=
  CChar.streq nodeType "Polygon" || CChar.streq nodeType "Triangle".

(** [polygonsByType[key].push_back(node)]; [operator[]] inserts an empty
    list for a key that is absent. *)
Definition push_back_at (key : string) (node : xml_node)
           (m : gmap string (list xml_node)) : gmap string (list xml_node) :=
  <[key := default [] (m !! key) ++ [node]]> m.

(** The first [if] of [for_each]. *)
Definition leave_defined_type (depth : nat) (w : t) : t :=
  if negb (CChar.streq (inDefinedType w) EmptyString)
     && (depth <=? depthToStop w)%nat
  then mk (polygonsByType w) EmptyString (depthToStop w)
  else w.

Definition for_each (depth : nat) (node : xml_node) (w : t) : outcome t :=
  let nodeType := strip_namespace (Xml.name node) in
  let w := leave_defined_type depth w in
  if is_surface_type nodeType then
    Returned true (mk (polygonsByType w) nodeType depth)
  else if is_polygon_type nodeType then
    Returned true (mk (push_back_at (inDefinedType w) node (polygonsByType w))
                      (inDefinedType w) (depthToStop w))
  else Returned true w.

End PolygonsWalker.

(** ** [ObjectsWalker] *)

Module ObjectsWalker.

Record t := mk { objects : list xml_node }.

Definition new : t := mk [].

Definition city_object_types : list string :=
  [ "AuxiliaryTrafficArea"; "Bridge"; "Building"; "BuildingPart";
    "BuildingInstallation"; "CityFurniture"; "GenericCityObject";
    "LandUse"; "PlantCover"; "Railway"; "ReliefFeature"; "Road";
    "SolitaryVegetationObject"; "TrafficArea"; "Tunnel"; "WaterBody" ].

Definition is_city_object_type (nodeType : string) : bool :=
  CChar.streq nodeType "AuxiliaryTrafficArea"
  || CChar.streq nodeType "Bridge"
  || CChar.streq nodeType "Building"
  || CChar.streq nodeType "BuildingPart"
  || CChar.streq nodeType "BuildingInstallation"
  || CChar.streq nodeType "CityFurniture"
  || CChar.streq nodeType "GenericCityObject"
  || CChar.streq nodeType "LandUse"
  || CChar.streq nodeType "PlantCover"
  || CChar.streq nodeType "Railway"
  || CChar.streq nodeType "ReliefFeature"
  || CChar.streq nodeType "Road"
  || CChar.streq nodeType "SolitaryVegetationObject"
  || CChar.streq nodeType "TrafficArea"
  || CChar.streq nodeType "Tunnel"
  || CChar.streq nodeType "WaterBody".

Definition for_each (depth : nat) (node : xml_node) (w : t) : outcome t :=
  let nodeType := strip_namespace (Xml.name node) in
  if is_city_object_type nodeType
  then Returned true (mk (objects w ++ [node]))
  else Returned true w.

End ObjectsWalker.

(** ** Triangulation faces

    [FaceBaseWithInfo] gives every face of the triangulation an [info()]
    of type [std::pair<bool, bool>].  A face is kept here with the
    back-references to the original points of its three vertices. *)

Record Face := mkFace {
  vertices : ParsedPoint * ParsedPoint * ParsedPoint;
  info : bool * bool
}.

Module Regeneration.

(** Modelled from the spec: the bodies of
    [addTrianglesFromTheConstrainedTriangulationOfPolygon],
    [regenerateTrianglesFor], [regenerateEdgesFor] and
    [regenerateGeometries] are in [Parser.cpp], which is not among the
    sources; [Parser.hpp] only declares them.  A face is kept iff its
    inside-exterior flag is true and its inside-some-hole flag false
    (section 4.2, step 3).  Which component of the pair holds which flag
    is said neither there nor in [Parser.hpp]: the first is taken for
    inside-exterior, and the statements below read the flags through
    these two accessors only. *)
Definition inside_exterior (f : Face) : bool := fst (info f).
Definition inside_some_hole (f : Face) : bool := snd (info f).
Definition kept (f : Face) : bool :=
  inside_exterior f && negb (inside_some_hole f).

(** The nine floats of a triangle: three vertices, xyz each. *)
Definition triangle_floats (f : Face) : list Float32.float :=
  let '(a, b, c) := vertices f in
  coordinate_list a ++ coordinate_list b ++ coordinate_list c.

(** Modelled from the spec: section 4.2, steps 3 and 4.  The faces are
    visited in order; a kept face appends its triangle to the buffer,
    any other face is passed over and the visit goes on. *)
Fixpoint emit_faces (faces : list Face) (triangles : list Float32.float)
  : list Float32.float :=
  match faces with
  | [] => triangles
  | f :: faces' =>
      if kept f then emit_faces faces' (triangles ++ triangle_floats f)
      else emit_faces faces' triangles
  end.

(** The six floats of a segment: two endpoints, xyz each. *)
Definition segment_floats (s : ParsedPoint * ParsedPoint)
  : list Float32.float :=
  coordinate_list (fst s) ++ coordinate_list (snd s).

(** Modelled from the spec: section 4.5, edge extraction.  Each
    consecutive point pair of the ring and then the closing pair (last
    point, first point). *)
Definition ring_segments (r : ParsedRing)
  : list (ParsedPoint * ParsedPoint) :=
  match ring_points r with
  | [] => []
  | p :: ps => combine (p :: ps) (ps ++ [p])
  end.

Definition ring_edges (r : ParsedRing) : list Float32.float :=
  flat_map segment_floats (ring_segments r).

Definition polygon_edges (p : ParsedPolygon) : list Float32.float :=
  ring_edges (exteriorRing p) ++ flat_map ring_edges (interiorRings p).

Section Driver.

(** Modelled from the spec: sections 4.1 and 4.2, steps 1 and 2.  The
    plane fit, the constrained Delaunay triangulation (CGAL) and the
    flood fill that sets the two flags are not among the sources; the
    faces they produce for a polygon are taken as given, [None] when
    the plane-fit preconditions fail and the polygon is skipped. *)
Variable triangulate : ParsedPolygon -> option (list Face).

Definition addTrianglesFromTheConstrainedTriangulationOfPolygon
           (polygon : ParsedPolygon) (triangles : list Float32.float)
  : list Float32.float :=
  match triangulate polygon with
  | Some faces => emit_faces faces triangles
  | None => triangles
  end.

(** The rebuilt triangle buffer of one surface type. *)
Definition triangles_of (polygons : list ParsedPolygon)
  : list Float32.float :=
  fold_left
    (fun triangles polygon =>
       addTrianglesFromTheConstrainedTriangulationOfPolygon
         polygon triangles)
    polygons [].

(** Modelled from the spec: section 4.5.  For every surface-type
    polygon list the triangle buffer of that surface type is cleared
    and rebuilt; buffers under other keys are not touched. *)
Definition regenerateTrianglesFor (object : ParsedObject)
  : ParsedObject :=
  mkParsedObject (type object) (id object) (attributes object)
    (polygonsByType object)
    ((triangles_of <$> polygonsByType object) ∪ trianglesByType object)
    (edges object).

(** Modelled from the spec: section 4.5.  The edge buffer is cleared
    and rebuilt from every ring of every polygon of the object. *)
Definition regenerateEdgesFor (object : ParsedObject) : ParsedObject :=
  mkParsedObject (type object) (id object) (attributes object)
    (polygonsByType object) (trianglesByType object)
    (flat_map (fun entry => flat_map polygon_edges (snd entry))
              (map_to_list (polygonsByType object))).

Definition regenerateGeometries (objects : list ParsedObject)
  : list ParsedObject :=
  map (fun object => regenerateEdgesFor (regenerateTrianglesFor object))
      objects.

End Driver.

(** An object as ingestion creates it: no triangle or edge buffer yet. *)
Definition freshly_ingested (o : ParsedObject) : Prop :=
  trianglesByType o = ∅ ∧ edges o = [].

Definition buffers_well_formed (o : ParsedObject) : Prop :=
  (∀ surface buffer,
      trianglesByType o !! surface = Some buffer →
      (9 | List.length buffer))
  ∧ (6 | List.length (edges o)).

End Regeneration.

(** ** Vocabulary of the statements *)

(** The points three converted coordinates at a time give. *)
Fixpoint group3 (l : list Float32.float) : list ParsedPoint :=
  match l with
  | a :: b :: c :: l' => mkParsedPoint (a, b, c) :: group3 l'
  | _ => []
  end.

(** [std::stof] returns a value for the token. *)
Definition converts (ue : bool) (tok : string) : Prop :=
  ∃ v, stof ue tok = stof_value v.

(** [<gml:posList>text</gml:posList>] and [<gml:pos>text</gml:pos>]. *)
Definition posList (text : string) : xml_node :=
  Xml.element "gml:posList" [Xml.pcdata text].
Definition pos (text : string) : xml_node :=
  Xml.element "gml:pos" [Xml.pcdata text].


(** The node's full name is [full_name]: [strcmp(node.name(), full_name) == 0]. *)
Definition named (full_name : string) (n : xml_node) : bool :=
  CChar.streq (Xml.name n) full_name.

(** The node's namespace-stripped name is a city-object type. *)
Definition is_city_object (n : xml_node) : bool :=
  ObjectsWalker.is_city_object_type (strip_namespace (Xml.name n)).

(** [<gml:Polygon>] with one [<gml:exterior>] child, inside whose
    [<gml:LinearRing>] lies an element named [gml:interior]. *)
Definition nested_interior : xml_node := Xml.element "gml:interior" [].
Definition exterior_with_nested_interior : xml_node :=
  Xml.element "gml:exterior" [Xml.element "gml:LinearRing" [nested_interior]].
Definition polygon_with_nested_interior : xml_node :=
  Xml.element "gml:Polygon" [exterior_with_nested_interior].

(** [<gml:LinearRing>] around a position list, and a polygon with an
    exterior ring and two holes as its children. *)
Definition linear_ring (text : string) : xml_node :=
  Xml.element "gml:LinearRing" [posList text].
Definition polygon_with_two_holes : xml_node :=
  Xml.element "gml:Polygon"
    [Xml.element "gml:exterior" [linear_ring "0 0 0 4 0 0 0 4 0"];
     Xml.element "gml:interior" [linear_ring "1 1 0 2 1 0 1 2 0"];
     Xml.element "gml:interior" [linear_ring "2 2 0 3 2 0 2 3 0"]].

(** The defined type in force for a node visited at [depth]: the one the
    walker holds, provided it was entered at a smaller depth; the
    undefined type (the empty string) otherwise. *)
Definition active_type (depth : nat) (w : PolygonsWalker.t) : string :=
  if negb (CChar.streq (PolygonsWalker.inDefinedType w) EmptyString)
     && (PolygonsWalker.depthToStop w <? depth)%nat
  then PolygonsWalker.inDefinedType w
  else EmptyString.

(** A building with a roof surface, a ground surface next to it, and a
    triangle after both. *)
Definition roof_polygon : xml_node :=
  Xml.element "gml:Polygon" [posList "1 1 1"].
Definition ground_polygon : xml_node :=
  Xml.element "gml:Polygon" [posList "2 2 2"].
Definition loose_triangle : xml_node :=
  Xml.element "gml:Triangle" [posList "3 3 3"].
Definition roof_surface : xml_node :=
  Xml.element "bldg:RoofSurface" [roof_polygon].
Definition ground_surface : xml_node :=
  Xml.element "bldg:GroundSurface" [ground_polygon].
Definition building : xml_node :=
  Xml.element "bldg:Building" [roof_surface; ground_surface; loose_triangle].

(** The unit square of scenario A, a triangulation that cuts a ring of at
    least three points along the fan of its first point (flags: inside the
    exterior, in no hole) and adds one face outside the exterior, and an
    object with the square as its only roof polygon. *)
Definition f32_one : Float32.float := S754_finite false 8388608 (-23).
Definition unit_square : ParsedPolygon :=
  mkParsedPolygon
    (mkParsedRing
       [mkParsedPoint (Float32.zero, Float32.zero, Float32.zero);
        mkParsedPoint (f32_one, Float32.zero, Float32.zero);
        mkParsedPoint (f32_one, f32_one, Float32.zero);
        mkParsedPoint (Float32.zero, f32_one, Float32.zero)])
    [].

Fixpoint fan (a : ParsedPoint) (l : list ParsedPoint) : list Face :=
  match l with
  | b :: (c :: _) as l' => mkFace (a, b, c) (true, false) :: fan a l'
  | _ => []
  end.

Definition fan_triangulation (p : ParsedPolygon) : option (list Face) :=
  match ring_points (exteriorRing p) with
  | a :: (b :: c :: _) as l =>
      Some (mkFace (a, b, c) (false, false) :: fan a l)
  | _ => None
  end.

Definition square_roof : ParsedObject :=
  mkParsedObject "Building" "b1" ∅ {["RoofSurface" := [unit_square]]} ∅ [].

(** Four faces on one triangle, one for each combination of the flags. *)
Definition flag_triangle : ParsedPoint * ParsedPoint * ParsedPoint :=
  (mkParsedPoint (Float32.zero, Float32.zero, Float32.zero),
   mkParsedPoint (f32_one, Float32.zero, Float32.zero),
   mkParsedPoint (f32_one, f32_one, Float32.zero)).
Definition four_faces : list Face :=
  [mkFace flag_triangle (true, true); mkFace flag_triangle (true, false);
   mkFace flag_triangle (false, true); mkFace flag_triangle (false, false)].

(** A triangulation that gives these four faces to a polygon whose
    exterior ring has a point, and none to a polygon without points. *)
Definition flag_triangulation (p : ParsedPolygon) : option (list Face) :=
  match ring_points (exteriorRing p) with
  | [] => None
  | _ => Some four_faces
  end.
Definition empty_polygon : ParsedPolygon :=
  mkParsedPolygon (mkParsedRing []) [].

(** ** Vocabulary of the further properties *)

(** What a [PointsWalker] call does to a walker that holds the points
    [base] and to an output that holds [cout], told from what the same
    call does to a fresh walker and an empty output: the earlier output
    stays in front; the earlier points stay in front unless the call
    returns after writing to the output. *)
Definition onto (base : list ParsedPoint) (cout : ostream)
           (r : outcome (PointsWalker.t * ostream))
  : outcome (PointsWalker.t * ostream) :=
  match r with
  | Returned go_on (w, out) =>
      match out with
      | [] => Returned go_on
                       (PointsWalker.mk (base ++ PointsWalker.points w), cout)
      | _ => Returned go_on (w, cout ++ out)
      end
  | Raised e (w, out) =>
      Raised e (PointsWalker.mk (base ++ PointsWalker.points w), cout ++ out)
  end.

(** A position list whose text lies in two text nodes around an element. *)
Definition split_position_list : xml_node :=
  Xml.element "gml:posList"
    [Xml.pcdata "1 2 3"; Xml.element "x" []; Xml.pcdata "4 5 6"].

(** Nodes that [PolygonsWalker] files and nodes that start a defined
    type. *)
Definition is_polygon_node (n : xml_node) : bool :=
  PolygonsWalker.is_polygon_type (strip_namespace (Xml.name n)).
Definition is_surface_node (n : xml_node) : bool :=
  PolygonsWalker.is_surface_type (strip_namespace (Xml.name n)).

(** The walker a [PolygonsWalker] call leaves. *)
Definition polygons_step (depth : nat) (node : xml_node)
           (w : PolygonsWalker.t) : PolygonsWalker.t :=
  match PolygonsWalker.for_each depth node w with
  | Returned _ w' => w'
  | Raised _ w' => w'
  end.

(** [node] is in one of the lists of the map. *)
Definition filed (m : gmap string (list xml_node)) (node : xml_node) : Prop :=
  ∃ key l, m !! key = Some l ∧ In node l.

(** A window with its polygon, as it lies in a roof surface. *)
Definition window_polygon : xml_node :=
  Xml.element "gml:Polygon" [posList "5 5 5"].
Definition roof_window : xml_node :=
  Xml.element "bldg:Window" [window_polygon].

(** A building with a part nested in it, inside a city model. *)
Definition building_part : xml_node :=
  Xml.element "bldg:BuildingPart" [roof_surface].
Definition building_with_part : xml_node :=
  Xml.element "bldg:Building"
    [Xml.element "bldg:consistsOfBuildingPart" [building_part]].
Definition city_model : xml_node :=
  XmlNode node_document EmptyString EmptyString
    [Xml.element "core:CityModel"
       [Xml.element "core:cityObjectMember" [building_with_part];
        Xml.element "core:cityObjectMember" [Xml.element "tran:Road" []]]].

(** Replaces the words of a literal text by their list. *)
Ltac words_of_text :=
  match goal with
  | |- context [IStream.words ?text] =>
      let l := eval vm_compute in (IStream.words text) in
      change (IStream.words text) with l
  end.

(** * Properties *)

(** ** Extraction from a string stream *)

Lemma words_from_nonempty (s cur : string) :
  Forall (fun w => w ≠ EmptyString) (IStream.words_from cur s).
Proof.
  revert cur; induction s as [|c s IH]; intros cur; simpl.
  - unfold CChar.streq. destruct (String.eqb_spec cur EmptyString); auto.
  - destruct (CChar.isspace c); [|apply IH].
    unfold CChar.streq. destruct (String.eqb_spec cur EmptyString); auto.
Qed.

Lemma words_from_skipws (s : string) :
  IStream.words_from EmptyString s =
  IStream.words_from EmptyString (IStream.skipws s).
Proof.
  induction s as [|c s IH]; simpl; [reflexivity|].
  destruct (CChar.isspace c) eqn:E; simpl; [exact IH|].
  rewrite E. reflexivity.
Qed.

Lemma string_app_nil_r (s : string) : s +:+ EmptyString = s.
Proof.
  induction s as [|c s IH]; [reflexivity|].
  change (String c (s +:+ EmptyString) = String c s). congruence.
Qed.

Lemma string_app_assoc (a b c : string) : (a +:+ b) +:+ c = a +:+ (b +:+ c).
Proof.
  induction a as [|x a IH]; [reflexivity|].
  change (String x ((a +:+ b) +:+ c) = String x (a +:+ (b +:+ c))).
  congruence.
Qed.

Lemma words_from_token (s cur : string) :
  cur ≠ EmptyString ->
  IStream.words_from cur s =
  (cur +:+ fst (IStream.token s))
    :: IStream.words_from EmptyString (snd (IStream.token s)).
Proof.
  revert cur. induction s as [|c s IH]; intros cur Hcur;
    cbn [IStream.words_from IStream.token fst snd].
  - unfold CChar.streq. destruct (String.eqb_spec cur EmptyString);
      [contradiction|]. rewrite string_app_nil_r. reflexivity.
  - destruct (CChar.isspace c) eqn:E; cbn [fst snd IStream.words_from].
    + unfold CChar.streq. destruct (String.eqb_spec cur EmptyString);
        [contradiction|]. rewrite string_app_nil_r, E. reflexivity.
    + rewrite IH by (destruct cur; discriminate).
      destruct (IStream.token s) as [t r]. cbn [fst snd].
      rewrite string_app_assoc. reflexivity.
Qed.

(** The words of a text are what repeated extraction yields: nothing when
    the extraction comes back empty, and otherwise the extracted string
    followed by the words of the rest of the stream. *)
Lemma words_extract (s : string) :
  IStream.words s =
  match IStream.extract s with
  | (EmptyString, _) => []
  | (tok, rest) => tok :: IStream.words rest
  end.
Proof.
  unfold IStream.words, IStream.extract. rewrite words_from_skipws.
  assert (H : IStream.skipws s = EmptyString
              ∨ ∃ c s', IStream.skipws s = String c s'
                        ∧ CChar.isspace c = false).
  { induction s as [|c s IH]; simpl; [auto|].
    destruct (CChar.isspace c) eqn:E; [exact IH | right; eauto]. }
  destruct H as [-> | (c & s' & -> & E)]; [reflexivity|].
  simpl. rewrite E.
  rewrite words_from_token by discriminate.
  destruct (IStream.token s') as [t r]. reflexivity.
Qed.

Lemma words_nonempty (s : string) :
  Forall (fun w => w ≠ EmptyString) (IStream.words s).
Proof. apply words_from_nonempty. Qed.

Lemma nonempty_length (w : string) :
  w ≠ EmptyString -> (0 <? String.length w)%nat = true.
Proof. destruct w; [congruence | reflexivity]. Qed.

(** ** The coordinate loop of [PointsWalker] *)

Lemma assign_back_snoc (i : nat) (v : Float32.float)
      (l : list ParsedPoint) (p : ParsedPoint) :
  PointsWalker.assign_back i v (l ++ [p]) = l ++ [set_coordinate i v p].
Proof.
  induction l as [|q l IH]; [reflexivity|].
  change ((q :: l) ++ [p]) with (q :: (l ++ [p])).
  assert (Hstep : ∀ x xs,
             PointsWalker.assign_back i v (q :: x :: xs) =
             q :: PointsWalker.assign_back i v (x :: xs)) by reflexivity.
  destruct (l ++ [p]) as [|x xs] eqn:E; [destruct l; discriminate|].
  rewrite Hstep, IH. reflexivity.
Qed.

Section CoordinateLoop.

Variable ue : bool.

Lemma read_cons_value tok v rest cc pts cout :
  tok ≠ EmptyString -> stof ue tok = stof_value v ->
  PointsWalker.read_coordinates ue (tok :: rest) cc pts cout =
  PointsWalker.read_coordinates ue rest ((cc + 1) mod 3)
       (PointsWalker.assign_back cc v
          (if (cc =? 0)%nat then pts ++ [ParsedPoint_new] else pts))
       cout.
Proof.
  intros Hne Hv. simpl. rewrite (nonempty_length _ Hne), Hv. reflexivity.
Qed.

Lemma read_cons_invalid tok rest cc pts cout :
  tok ≠ EmptyString -> stof ue tok = stof_invalid_argument ->
  PointsWalker.read_coordinates ue (tok :: rest) cc pts cout =
  Returned true (PointsWalker.mk [],
                 cout ++ [PointsWalker.invalid_point_message tok]).
Proof.
  intros Hne Hv. simpl. rewrite (nonempty_length _ Hne), Hv. reflexivity.
Qed.

Lemma read_cons_out_of_range tok rest cc pts cout :
  tok ≠ EmptyString -> stof ue tok = stof_out_of_range ->
  PointsWalker.read_coordinates ue (tok :: rest) cc pts cout =
  Raised std_out_of_range
         (PointsWalker.mk
            (if (cc =? 0)%nat then pts ++ [ParsedPoint_new] else pts),
          cout).
Proof.
  intros Hne Hv. simpl. rewrite (nonempty_length _ Hne), Hv. reflexivity.
Qed.

(** Tokens that convert are consumed without output; the loop goes on
    with the tokens after them. *)
Lemma read_converting_prefix pre :
  Forall (fun w => w ≠ EmptyString) pre -> Forall (converts ue) pre ->
  ∀ rest cc pts cout,
    ∃ cc' pts', PointsWalker.read_coordinates ue (pre ++ rest) cc pts cout = PointsWalker.read_coordinates ue rest cc' pts' cout.
Proof.
  induction pre as [|tok pre IH]; intros Hne Hok rest cc pts cout.
  - exists cc, pts. reflexivity.
  - inversion Hne as [|? ? Hne1 Hne2]; subst.
    inversion Hok as [|? ? [v Hv] Hok2]; subst.
    simpl app. rewrite (read_cons_value _ v) by assumption.
    apply IH; assumption.
Qed.

Lemma read_triple a b c va vb vc rest pts cout :
  a ≠ EmptyString -> b ≠ EmptyString -> c ≠ EmptyString ->
  stof ue a = stof_value va -> stof ue b = stof_value vb ->
  stof ue c = stof_value vc ->
  PointsWalker.read_coordinates ue (a :: b :: c :: rest) 0 pts cout =
  PointsWalker.read_coordinates ue rest 0 (pts ++ [mkParsedPoint (va, vb, vc)]) cout.
Proof.
  intros Ha Hb Hc Hva Hvb Hvc.
  rewrite (read_cons_value a va) by assumption.
  rewrite (read_cons_value b vb) by assumption.
  rewrite (read_cons_value c vc) by assumption.
  change ((0 =? 0)%nat) with true. cbv iota.
  change (((0 + 1) mod 3)) with 1.
  change (((1 + 1) mod 3)) with 2.
  change (((2 + 1) mod 3)) with 0.
  change ((1 =? 0)%nat) with false. change ((2 =? 0)%nat) with false.
  cbv iota.
  rewrite !assign_back_snoc. reflexivity.
Qed.

(** Whole triples of converting tokens add one point each. *)
Lemma read_triples n :
  ∀ toks vals pts cout,
    Forall (fun w => w ≠ EmptyString) toks ->
    Forall2 (fun tok v => stof ue tok = stof_value v) toks vals ->
    List.length vals = 3 * n ->
    PointsWalker.read_coordinates ue toks 0 pts cout =
    Returned true (PointsWalker.mk (pts ++ group3 vals), cout)
    ∧ List.length (group3 vals) = n.
Proof.
  induction n as [|n IH]; intros toks vals pts cout Hne H2 Hlen.
  - destruct vals; [|discriminate]. inversion H2; subst.
    simpl. rewrite app_nil_r. auto.
  - destruct vals as [|va [|vb [|vc vals]]]; try (simpl in Hlen; lia).
    inversion H2 as [|a ? ? ? Ha H2a]; subst.
    inversion H2a as [|b ? ? ? Hb H2b]; subst.
    inversion H2b as [|c ? toks' ? Hc H2c]; subst.
    inversion Hne as [|? ? Na Hne1]; subst.
    inversion Hne1 as [|? ? Nb Hne2]; subst.
    inversion Hne2 as [|? ? Nc Hne3]; subst.
    rewrite (read_triple a b c va vb vc) by assumption.
    destruct (IH toks' vals (pts ++ [mkParsedPoint (va, vb, vc)]) cout)
      as [Hr Hl]; [assumption | assumption | simpl in Hlen; lia |].
    rewrite Hr. simpl group3. rewrite <- app_assoc. simpl. auto.
Qed.

(** Without a token out of float range the loop always returns [true],
    either after a diagnostic with no points left, or silently when the
    coordinates came out even. *)
Lemma read_contained toks :
  Forall (fun w => w ≠ EmptyString) toks ->
  Forall (fun tok => stof ue tok ≠ stof_out_of_range) toks ->
  ∀ cc pts cout,
    (∃ msg, PointsWalker.read_coordinates ue toks cc pts cout =
            Returned true (PointsWalker.mk [], cout ++ [msg]))
    ∨ ((cc + List.length toks) mod 3 = 0
       ∧ ∃ pts', PointsWalker.read_coordinates ue toks cc pts cout =
                 Returned true (PointsWalker.mk pts', cout)).
Proof.
  induction toks as [|tok toks IH]; intros Hne Hin cc pts cout.
  - simpl. destruct cc as [|cc]; simpl.
    + right. split; [reflexivity | eauto].
    + left. eauto.
  - inversion Hne as [|? ? Hne1 Hne2]; subst.
    inversion Hin as [|? ? Hin1 Hin2]; subst.
    destruct (stof ue tok) as [v| |] eqn:Hv; [| |congruence].
    + rewrite (read_cons_value _ v) by assumption.
      match goal with
      | |- context [PointsWalker.read_coordinates ue toks ?c ?p cout] =>
          destruct (IH Hne2 Hin2 c p cout) as [Hl|[Hm Hr]]
      end.
      * left; exact Hl.
      * right; split; [|exact Hr].
        rewrite Nat.Div0.add_mod_idemp_l in Hm.
        simpl List.length.
        replace (cc + S (List.length toks)) with (cc + 1 + List.length toks)
          by lia.
        exact Hm.
    + rewrite read_cons_invalid by assumption. left. eauto.
Qed.

End CoordinateLoop.

Lemma read_converting_uneven (ue : bool) (toks : list string) :
  Forall (fun w => w ≠ EmptyString) toks -> Forall (converts ue) toks ->
  ∀ cc pts cout,
    (cc + List.length toks) mod 3 ≠ 0 ->
    PointsWalker.read_coordinates ue toks cc pts cout =
    Returned true (PointsWalker.mk [],
                   cout ++ [PointsWalker.wrong_number_message]).
Proof.
  induction toks as [|tok toks IH]; intros Hne Hok cc pts cout Hm.
  - simpl. destruct cc as [|cc]; [|reflexivity].
    exfalso. apply Hm. reflexivity.
  - inversion Hne as [|? ? Hne1 Hne2]; subst.
    inversion Hok as [|? ? [v Hv] Hok2]; subst.
    rewrite (read_cons_value ue tok v) by assumption.
    apply IH; [assumption | assumption |].
    rewrite Nat.Div0.add_mod_idemp_l. simpl List.length in Hm.
    replace (cc + 1 + List.length toks) with (cc + S (List.length toks))
      by lia.
    exact Hm.
Qed.

(** How [for_each] treats a position list, in terms of the loop. *)
Lemma points_for_each_position_list (ue : bool) (depth : nat)
      (node : xml_node) (s : PointsWalker.t * ostream) :
  PointsWalker.is_position_list node = true ->
  PointsWalker.for_each ue depth node s =
  PointsWalker.read_coordinates ue (IStream.words (Xml.child_value node)) 0
                                (PointsWalker.points (fst s)) (snd s).
Proof. intros H. unfold PointsWalker.for_each. rewrite H. reflexivity. Qed.



(** [std::stof] converts the longest numeric prefix of a token, so a
    token with trailing text is not rejected. *)
Remark numeric_prefix_is_converted :
  stof true "2.5abc" = stof_value (S754_finite false 10485760 (-22))
  ∧ stof true "abc2.5" = stof_invalid_argument.
Proof. split; vm_compute; reflexivity. Qed.

(** [std::stof] reports a tiny value that is not exact as out of range,
    whichever way tininess is detected, and converts a subnormal number
    that is written exactly; the two ways of detecting tininess differ on
    a value that rounds up to the least normal number. *)
Remark inexact_tiny_values_are_out_of_range (after : bool) :
  stof after "1.1754943e-38" = stof_out_of_range
  ∧ stof after "1e-40" = stof_out_of_range
  ∧ stof after "0x1p-149" = stof_value (S754_finite false 1 (-149))
  ∧ stof after "1.17549435e-38" =
    (if after then stof_value (S754_finite false 8388608 (-149))
     else stof_out_of_range).
Proof. destruct after; repeat split; vm_compute; reflexivity. Qed.


(** C2. On the position list "1e39 2.0", two tokens whose first is out of
    float range, the token count is not a multiple of 3, yet [for_each]
    does not return with an empty list of points: [std::out_of_range],
    which the [catch] clause next to the conversion does not name, leaves
    it before the count is checked, nothing is written, and the point
    pushed for the first coordinate is still in the list. *)
Theorem out_of_range_token_leaves_no_empty_ring :
  List.length (IStream.words (Xml.child_value (posList "1e39 2.0"))) mod 3 ≠ 0
  ∧ PointsWalker.for_each true 0 (posList "1e39 2.0") (PointsWalker.new, []) =
    Raised std_out_of_range (PointsWalker.mk [ParsedPoint_new], [])
  ∧ PointsWalker.for_each false 0 (posList "1e39 2.0") (PointsWalker.new, []) =
    Raised std_out_of_range (PointsWalker.mk [ParsedPoint_new], [])
  ∧ ¬ (∃ go_on cout,
          PointsWalker.for_each true 0 (posList "1e39 2.0")
                                (PointsWalker.new, []) =
          Returned go_on (PointsWalker.mk [], cout)).
Proof.
  split; [vm_compute; lia|].
  split; [vm_compute; reflexivity|].
  split; [vm_compute; reflexivity|].
  intros (go_on & cout & H). vm_compute in H. discriminate H.
Qed.

(** What [for_each] does with a position list in which no token is out
    of float range.  For a position list whose tokens all convert and make
    [n] triples, [for_each] appends exactly [n] points, one per triple in
    order, and writes nothing.  For a position list whose token count is
    not a multiple of 3 and none of whose tokens is out of float range,
    [for_each] returns with no point left and one diagnostic written,
    which is the wrong-number message when every token converts. *)
Lemma triples_give_points_and_uneven_count_discards
        (ue : bool) (depth : nat) (node : xml_node)
        (w : PointsWalker.t) (cout : ostream) :
  PointsWalker.is_position_list node = true ->
  (∀ vals n,
      Forall2 (fun tok v => stof ue tok = stof_value v)
              (IStream.words (Xml.child_value node)) vals ->
      List.length vals = 3 * n ->
      PointsWalker.for_each ue depth node (w, cout) =
      Returned true
               (PointsWalker.mk (PointsWalker.points w ++ group3 vals), cout)
      ∧ List.length (group3 vals) = n)
  ∧ (List.length (IStream.words (Xml.child_value node)) mod 3 ≠ 0 ->
     Forall (fun tok => stof ue tok ≠ stof_out_of_range)
            (IStream.words (Xml.child_value node)) ->
     ∃ msg,
       PointsWalker.for_each ue depth node (w, cout) =
       Returned true (PointsWalker.mk [], cout ++ [msg])
       ∧ (Forall (converts ue) (IStream.words (Xml.child_value node)) ->
          msg = PointsWalker.wrong_number_message)).
Proof.
  intros Hpos.
  rewrite points_for_each_position_list by assumption. cbn [fst snd].
  pose proof (words_nonempty (Xml.child_value node)) as Hne.
  split.
  - intros vals n H2 Hlen. apply read_triples; assumption.
  - intros Hmod Hin.
    destruct (read_contained ue _ Hne Hin 0 (PointsWalker.points w) cout)
      as [[msg Hmsg] | [Hm _]]; [|contradiction].
    exists msg. split; [exact Hmsg|].
    intros Hok.
    rewrite (read_converting_uneven ue _ Hne Hok) in Hmsg by exact Hmod.
    injection Hmsg as Hmsg. apply app_inv_head in Hmsg.
    injection Hmsg as Hmsg. auto.
Qed.

(** Two triples give two points; scenario C: the five tokens of
    "1.0 2.0 3.0 4.0 5.0" leave 0 points and the wrong-number message. *)
Lemma triples_and_scenario_C :
  (PointsWalker.for_each true 0 (posList "1.0 2.0 3.0 4 5 6")
                         (PointsWalker.new, []) =
   Returned true
     (PointsWalker.mk
        [mkParsedPoint (S754_finite false 8388608 (-23),
                        S754_finite false 8388608 (-22),
                        S754_finite false 12582912 (-22));
         mkParsedPoint (S754_finite false 8388608 (-21),
                        S754_finite false 10485760 (-21),
                        S754_finite false 12582912 (-21))], []))
  ∧ (PointsWalker.for_each true 0 (posList "1.0 2.0 3.0 4.0 5.0")
                           (PointsWalker.new, []) =
     Returned true (PointsWalker.mk [],
                    ["Wrong number of coordinates: not divisible by 3"])).
Proof.
  split.
  - refine (proj1 (proj1 (triples_give_points_and_uneven_count_discards
                            true 0 (posList "1.0 2.0 3.0 4 5 6")
                            PointsWalker.new [] eq_refl)
                         [S754_finite false 8388608 (-23);
                          S754_finite false 8388608 (-22);
                          S754_finite false 12582912 (-22);
                          S754_finite false 8388608 (-21);
                          S754_finite false 10485760 (-21);
                          S754_finite false 12582912 (-21)] 2 _ eq_refl)).
    words_of_text. repeat constructor; vm_compute; reflexivity.
  - destruct (proj2 (triples_give_points_and_uneven_count_discards
                       true 0 (posList "1.0 2.0 3.0 4.0 5.0")
                       PointsWalker.new [] eq_refl))
      as (msg & Hr & Hmsg).
    + vm_compute. lia.
    + words_of_text. repeat constructor; vm_compute; discriminate.
    + rewrite Hmsg in Hr; [exact Hr|].
      words_of_text. repeat constructor; eexists; vm_compute; reflexivity.
Defined.

(** C9. A node whose full name is neither "gml:pos" nor "gml:posList"
    leaves the walker's points and the output as they are, whatever its
    text: the name is compared as it stands, prefix included. *)
Theorem only_gml_pos_and_posList_are_read
        (ue : bool) (depth : nat) (node : xml_node)
        (s : PointsWalker.t * ostream) :
  Xml.name node ≠ "gml:pos" ->
  Xml.name node ≠ "gml:posList" ->
  PointsWalker.for_each ue depth node s = Returned true s.
Proof.
  intros H1 H2. unfold PointsWalker.for_each, PointsWalker.is_position_list.
  unfold CChar.streq.
  destruct (String.eqb_spec (Xml.name node) "gml:pos"); [contradiction|].
  destruct (String.eqb_spec (Xml.name node) "gml:posList"); [contradiction|].
  reflexivity.
Qed.

(** Position lists under another prefix or under none give no point. *)
Lemma other_prefixes_give_no_points :
  PointsWalker.for_each true 0
    (Xml.element "posList" [Xml.pcdata "1 2 3"]) (PointsWalker.new, []) =
  Returned true (PointsWalker.new, [])
  ∧ PointsWalker.for_each true 0
      (Xml.element "citygml:posList" [Xml.pcdata "1 2 3"])
      (PointsWalker.new, []) =
    Returned true (PointsWalker.new, []).
Proof.
  split; apply only_gml_pos_and_posList_are_read; discriminate.
Defined.

(** C10. The token "1e39" is numeric and its value is beyond the largest
    float, so [std::stof] throws [std::out_of_range] for it; and whenever
    [std::stof] throws that for a token of a position list (the tokens
    before it having been converted), the exception leaves [for_each] and
    ends the traversal: no diagnostic is written and the call does not
    return [true] with the points cleared. *)
Theorem out_of_range_token_is_not_contained :
  (∃ tok magnitude,
      Strtof.subject_of (list_ascii_of_string tok) =
      Strtof.Number magnitude true
      ∧ Float32.is_infinite magnitude = true
      ∧ stof true tok = stof_out_of_range
      ∧ stof false tok = stof_out_of_range)
  ∧ ∀ (ue : bool) (depth : nat) (node : xml_node)
      (pre post : list string) (tok : string)
      (w : PointsWalker.t) (cout : ostream) (vs : list (nat * xml_node)),
      PointsWalker.is_position_list node = true ->
      IStream.words (Xml.child_value node) = pre ++ tok :: post ->
      Forall (converts ue) pre ->
      stof ue tok = stof_out_of_range ->
      ∃ pts,
        PointsWalker.for_each ue depth node (w, cout) =
        Raised std_out_of_range (PointsWalker.mk pts, cout)
        ∧ Walker.run (PointsWalker.for_each ue) ((depth, node) :: vs)
                     (w, cout) =
          Raised std_out_of_range (PointsWalker.mk pts, cout).
Proof.
  split.
  - exists "1e39", (S754_infinity false). vm_compute. auto.
  - intros ue depth node pre post tok w cout vs Hpos Hwords Hpre Htok.
    assert (Hfe : ∃ pts,
               PointsWalker.for_each ue depth node (w, cout) =
               Raised std_out_of_range (PointsWalker.mk pts, cout)).
    { rewrite points_for_each_position_list by assumption. cbn [fst snd].
      pose proof (words_nonempty (Xml.child_value node)) as Hne.
      rewrite Hwords in Hne |- *.
      apply Forall_app in Hne as [Hne1 Hne2].
      inversion Hne2 as [|? ? Hne3 _]; subst.
      destruct (read_converting_prefix ue pre Hne1 Hpre (tok :: post) 0
                  (PointsWalker.points w) cout) as (cc & pts & ->).
      rewrite read_cons_out_of_range by assumption. eauto. }
    destruct Hfe as [pts Hfe]. exists pts. split; [exact Hfe|].
    simpl Walker.run. rewrite Hfe. reflexivity.
Qed.

(** The position list "1e39" on a fresh walker. *)
Lemma out_of_range_token_example :
  ∃ pts,
    PointsWalker.for_each true 0 (posList "1e39") (PointsWalker.new, []) =
    Raised std_out_of_range (PointsWalker.mk pts, [])
    ∧ Walker.run (PointsWalker.for_each true) [(0, posList "1e39")]
                 (PointsWalker.new, []) =
      Raised std_out_of_range (PointsWalker.mk pts, []).
Proof.
  refine (proj2 out_of_range_token_is_not_contained
                true 0 (posList "1e39") [] [] "1e39" PointsWalker.new [] []
                eq_refl eq_refl _ _).
  - constructor.
  - vm_compute. reflexivity.
Defined.

(** ** Tree walks that never stop *)

(** A walker whose [for_each] always returns [true] and never throws
    visits every node: the walk is a left fold of its state change. *)
Lemma run_total {S : Type} (for_each : nat -> xml_node -> S -> outcome S)
      (step : nat -> xml_node -> S -> S) :
  (∀ d n s, for_each d n s = Returned true (step d n s)) ->
  ∀ vs s,
    Walker.run for_each vs s =
    Returned true (fold_left (fun s v => step (fst v) (snd v) s) vs s).
Proof.
  intros Hstep vs. induction vs as [|[d n] vs IH]; intros s; simpl.
  - reflexivity.
  - rewrite Hstep. apply IH.
Qed.

(** ** Namespace stripping *)

Lemma after_first_qualified (prefix loc : string) :
  CChar.after_first ":" prefix = None ->
  CChar.after_first ":" (prefix +:+ ":" +:+ loc) = Some loc.
Proof.
  induction prefix as [|c p IH]; simpl; intros H.
  - reflexivity.
  - destruct (Ascii.eqb c ":"); [discriminate | auto].
Qed.

Lemma strip_namespace_qualified (prefix loc : string) :
  CChar.after_first ":" prefix = None ->
  strip_namespace (prefix +:+ ":" +:+ loc) = loc.
Proof.
  intros H. unfold strip_namespace.
  rewrite after_first_qualified by assumption. reflexivity.
Qed.

Lemma strip_namespace_unqualified (s : string) :
  CChar.after_first ":" s = None -> strip_namespace s = s.
Proof. intros H. unfold strip_namespace. rewrite H. reflexivity. Qed.

(** ** [ObjectsWalker] *)

Lemma is_city_object_type_In (s : string) :
  ObjectsWalker.is_city_object_type s = true
  <-> In s ObjectsWalker.city_object_types.
Proof.
  unfold ObjectsWalker.is_city_object_type, ObjectsWalker.city_object_types,
    CChar.streq.
  rewrite !orb_true_iff, !String.eqb_eq. simpl In.
  intuition auto.
Qed.

Lemma objects_fold (vs : list (nat * xml_node)) (w : ObjectsWalker.t) :
  ObjectsWalker.objects
    (fold_left (fun w v =>
                  if is_city_object (snd v)
                  then ObjectsWalker.mk (ObjectsWalker.objects w ++ [snd v])
                  else w) vs w) =
  ObjectsWalker.objects w ++ List.filter is_city_object (map snd vs).
Proof.
  revert w. induction vs as [|[d n] vs IH]; intros w; simpl.
  - rewrite app_nil_r. reflexivity.
  - rewrite IH. destruct (is_city_object n); simpl.
    + rewrite <- app_assoc. reflexivity.
    + reflexivity.
Qed.

(** C6. The traversal hands every descendant of its start node to
    [for_each], which strips the text up to the first colon from the name
    and collects the node exactly when what remains is one of the sixteen
    city-object type names; the collected nodes are therefore the
    descendants with a whitelisted local name, in document order, and no
    node with another local name is among them. *)
Theorem objects_are_the_whitelisted_descendants (start : xml_node) :
  Walker.traverse ObjectsWalker.for_each start ObjectsWalker.new =
  Returned true
           (ObjectsWalker.mk
              (List.filter is_city_object (Xml.descendants start)))
  ∧ (∀ node,
        In node (List.filter is_city_object (Xml.descendants start))
        <-> In node (Xml.descendants start)
            ∧ In (strip_namespace (Xml.name node))
                 [ "AuxiliaryTrafficArea"; "Bridge"; "Building";
                   "BuildingPart"; "BuildingInstallation"; "CityFurniture";
                   "GenericCityObject"; "LandUse"; "PlantCover"; "Railway";
                   "ReliefFeature"; "Road"; "SolitaryVegetationObject";
                   "TrafficArea"; "Tunnel"; "WaterBody" ])
  ∧ (∀ prefix loc,
        CChar.after_first ":" prefix = None ->
        strip_namespace (prefix +:+ ":" +:+ loc) = loc)
  ∧ (∀ name,
        CChar.after_first ":" name = None -> strip_namespace name = name).
Proof.
  split; [|split; [|split]].
  - unfold Walker.traverse.
    rewrite (run_total ObjectsWalker.for_each
               (fun _ n w =>
                  if is_city_object n
                  then ObjectsWalker.mk (ObjectsWalker.objects w ++ [n])
                  else w)).
    + f_equal.
      pose proof (objects_fold (Xml.visits start) ObjectsWalker.new) as H.
      simpl in H. unfold Xml.descendants. rewrite <- H.
      destruct (fold_left _ _ _). reflexivity.
    + intros d n w. unfold ObjectsWalker.for_each, is_city_object.
      destruct (ObjectsWalker.is_city_object_type _); reflexivity.
  - intros node. rewrite filter_In. unfold is_city_object.
    rewrite is_city_object_type_In. reflexivity.
  - apply strip_namespace_qualified.
  - apply strip_namespace_unqualified.
Qed.

(** In a small city model the two buildings and the road are collected,
    the model element and the name element are not. *)
Lemma objects_example :
  Walker.traverse ObjectsWalker.for_each
    (XmlNode node_document EmptyString EmptyString
       [Xml.element "core:CityModel"
          [Xml.element "core:cityObjectMember"
             [Xml.element "bldg:Building"
                [Xml.element "gml:name" [Xml.pcdata "A"];
                 Xml.element "bldg:BuildingPart" []]];
           Xml.element "Road" []]])
    ObjectsWalker.new =
  Returned true
    (ObjectsWalker.mk
       [Xml.element "bldg:Building"
          [Xml.element "gml:name" [Xml.pcdata "A"];
           Xml.element "bldg:BuildingPart" []];
        Xml.element "bldg:BuildingPart" [];
        Xml.element "Road" []]).
Proof.
  exact (proj1 (objects_are_the_whitelisted_descendants _)).
Defined.

(** ** [RingsWalker] *)

Lemma rings_fold (vs : list (nat * xml_node)) (w : RingsWalker.t) :
  fold_left (fun w v =>
               if named "gml:exterior" (snd v)
               then RingsWalker.mk (Some (snd v)) (RingsWalker.interiorRings w)
               else if named "gml:interior" (snd v)
                    then RingsWalker.mk (RingsWalker.exteriorRing w)
                                        (RingsWalker.interiorRings w ++ [snd v])
                    else w) vs w =
  RingsWalker.mk
    (match last (List.filter (named "gml:exterior") (map snd vs)) with
     | Some e => Some e
     | None => RingsWalker.exteriorRing w
     end)
    (RingsWalker.interiorRings w
       ++ List.filter (named "gml:interior") (map snd vs)).
Proof.
  revert w. induction vs as [|[d n] vs IH]; intros [e i]; simpl.
  - rewrite app_nil_r. reflexivity.
  - rewrite IH. clear IH.
    destruct (named "gml:exterior" n) eqn:E1.
    + assert (E2 : named "gml:interior" n = false).
      { unfold named, CChar.streq in *.
        apply String.eqb_eq in E1. rewrite E1. reflexivity. }
      rewrite E2. simpl. rewrite last_cons.
      destruct (last (List.filter (named "gml:exterior") (map snd vs)));
        reflexivity.
    + destruct (named "gml:interior" n); simpl.
      * rewrite <- app_assoc. reflexivity.
      * reflexivity.
Qed.

(** *** Polygons whose rings are all children *)

Lemma xml_node_forall_ind (P : xml_node -> Prop) :
  (∀ t name value cs, Forall P cs -> P (XmlNode t name value cs)) ->
  ∀ n, P n.
Proof.
  intros H. fix IH 1. intros [t name value cs]. apply H.
  induction cs as [|c cs IHcs]; constructor; [apply IH | exact IHcs].
Qed.

Lemma subtree_unfold (d : nat) (n : xml_node) :
  Xml.subtree d n = (d, n) :: Xml.forest (S d) (Xml.children n).
Proof.
  destruct n as [t name value cs]. reflexivity.
Qed.

(** The nodes of a subtree do not depend on the depth it is entered at. *)
Lemma subtree_nodes (n : xml_node) :
  ∀ d d', map snd (Xml.subtree d n) = map snd (Xml.subtree d' n).
Proof.
  induction n as [t name value cs IH] using xml_node_forall_ind.
  intros d d'. rewrite !subtree_unfold. simpl. f_equal.
  unfold Xml.forest. generalize (S d) (S d'). intros e e'.
  induction IH as [|c cs Hc _ IHcs]; simpl; [reflexivity|].
  rewrite !map_app, (Hc e e'), IHcs. reflexivity.
Qed.

Lemma forest_nodes_depth (cs : list xml_node) (d d' : nat) :
  map snd (Xml.forest d cs) = map snd (Xml.forest d' cs).
Proof.
  unfold Xml.forest. induction cs as [|c cs IH]; simpl; [reflexivity|].
  rewrite !map_app, IH, (subtree_nodes c d d'). reflexivity.
Qed.

Lemma forest_nodes (cs : list xml_node) :
  map snd (Xml.forest 0 cs) =
  flat_map (fun c => c :: Xml.descendants c) cs.
Proof.
  induction cs as [|c cs IH]; [reflexivity|].
  change (Xml.forest 0 (c :: cs))
    with (Xml.subtree 0 c ++ Xml.forest 0 cs).
  rewrite map_app, IH, subtree_unfold.
  change (map snd ((0, c) :: Xml.forest 1 (Xml.children c)))
    with (c :: map snd (Xml.forest 1 (Xml.children c))).
  rewrite (forest_nodes_depth (Xml.children c) 1 0). reflexivity.
Qed.

Lemma filter_children_only (p : xml_node -> bool) (cs : list xml_node) :
  (∀ c, In c cs -> Forall (fun n => p n = false) (Xml.descendants c)) ->
  List.filter p (flat_map (fun c => c :: Xml.descendants c) cs) =
  List.filter p cs.
Proof.
  induction cs as [|c cs IH]; intros H; simpl; [reflexivity|].
  assert (Hc : List.filter p (Xml.descendants c) = []).
  { specialize (H c (or_introl eq_refl)).
    induction H as [|n ns Hn _ IHn]; simpl; [reflexivity|].
    rewrite Hn. exact IHn. }
  rewrite List.filter_app, Hc, IH by (intros c' Hc'; apply H; right; exact Hc').
  destruct (p c); reflexivity.
Qed.

(** C7, as stated, fails on this polygon: it has a single [gml:exterior]
    child and no [gml:interior] child, yet the walk over it collects one interior ring: the element
    named [gml:interior] that lies inside the exterior ring. *)
Lemma nested_interior_is_taken_as_a_ring :
  List.filter (named "gml:exterior")
              (Xml.children polygon_with_nested_interior) =
  [exterior_with_nested_interior]
  ∧ List.filter (named "gml:interior")
                (Xml.children polygon_with_nested_interior) = []
  ∧ Walker.traverse RingsWalker.for_each polygon_with_nested_interior
                    RingsWalker.new =
    Returned true
             (RingsWalker.mk (Some exterior_with_nested_interior)
                             [nested_interior])
  ∧ ¬ In nested_interior (Xml.children polygon_with_nested_interior).
Proof.
  split; [reflexivity|]. split; [reflexivity|]. split; [reflexivity|].
  simpl. intros [H|[]]. discriminate H.
Qed.

(** C7 (amended). The walk over a polygon element takes as exterior ring
    the last of its descendants, in document order, whose full name is
    exactly "gml:exterior" (the null handle when there is none), and as
    interior rings all of its descendants whose full name is exactly
    "gml:interior", in document order; no other node is taken.  When no
    node with one of these two names lies below the children of the
    polygon and exactly one child is named "gml:exterior", the rings taken
    are that child and the children named "gml:interior". *)
Theorem rings_are_the_named_descendants (polygon : xml_node) :
  Walker.traverse RingsWalker.for_each polygon RingsWalker.new =
  Returned true
    (RingsWalker.mk
       (last (List.filter (named "gml:exterior") (Xml.descendants polygon)))
       (List.filter (named "gml:interior") (Xml.descendants polygon)))
  ∧ ∀ e,
      (∀ c, In c (Xml.children polygon) ->
            Forall (fun n => named "gml:exterior" n = false)
                   (Xml.descendants c)) ->
      (∀ c, In c (Xml.children polygon) ->
            Forall (fun n => named "gml:interior" n = false)
                   (Xml.descendants c)) ->
      List.filter (named "gml:exterior") (Xml.children polygon) = [e] ->
      Walker.traverse RingsWalker.for_each polygon RingsWalker.new =
      Returned true
        (RingsWalker.mk
           (Some e)
           (List.filter (named "gml:interior") (Xml.children polygon))).
Proof.
  assert (Hwalk :
            Walker.traverse RingsWalker.for_each polygon RingsWalker.new =
            Returned true
              (RingsWalker.mk
                 (last (List.filter (named "gml:exterior")
                                    (Xml.descendants polygon)))
                 (List.filter (named "gml:interior")
                              (Xml.descendants polygon)))).
  { unfold Walker.traverse.
    rewrite (run_total RingsWalker.for_each
               (fun _ n w =>
                  if named "gml:exterior" n
                  then RingsWalker.mk (Some n) (RingsWalker.interiorRings w)
                  else if named "gml:interior" n
                       then RingsWalker.mk
                              (RingsWalker.exteriorRing w)
                              (RingsWalker.interiorRings w ++ [n])
                       else w)).
    - rewrite rings_fold. unfold Xml.descendants. simpl.
      destruct (last _); reflexivity.
    - intros d n w. unfold RingsWalker.for_each, named.
      destruct (CChar.streq (Xml.name n) "gml:exterior"); [reflexivity|].
      destruct (CChar.streq (Xml.name n) "gml:interior"); reflexivity. }
  split; [exact Hwalk|].
  intros e Hext Hint He. rewrite Hwalk.
  unfold Xml.descendants at 1 2, Xml.visits. rewrite forest_nodes.
  rewrite !filter_children_only by assumption.
  rewrite He. reflexivity.
Qed.

(** A polygon with an exterior ring and two holes as its children. *)
Lemma rings_example :
  Walker.traverse RingsWalker.for_each polygon_with_two_holes
                  RingsWalker.new =
  Returned true
    (RingsWalker.mk
       (Some (Xml.element "gml:exterior" [linear_ring "0 0 0 4 0 0 0 4 0"]))
       [Xml.element "gml:interior" [linear_ring "1 1 0 2 1 0 1 2 0"];
        Xml.element "gml:interior" [linear_ring "2 2 0 3 2 0 2 3 0"]]).
Proof.
  refine (proj2 (rings_are_the_named_descendants polygon_with_two_holes)
                _ _ _ eq_refl).
  - intros c Hc. simpl in Hc.
    destruct Hc as [<-|[<-|[<-|[]]]]; repeat constructor.
  - intros c Hc. simpl in Hc.
    destruct Hc as [<-|[<-|[<-|[]]]]; repeat constructor.
Defined.

(** ** [PolygonsWalker] *)

Lemma leave_defined_type_active (depth : nat) (w : PolygonsWalker.t) :
  PolygonsWalker.inDefinedType (PolygonsWalker.leave_defined_type depth w) =
  active_type depth w
  ∧ PolygonsWalker.polygonsByType
      (PolygonsWalker.leave_defined_type depth w) =
    PolygonsWalker.polygonsByType w
  ∧ PolygonsWalker.depthToStop (PolygonsWalker.leave_defined_type depth w) =
    PolygonsWalker.depthToStop w.
Proof.
  unfold PolygonsWalker.leave_defined_type, active_type.
  destruct (CChar.streq (PolygonsWalker.inDefinedType w) EmptyString) eqn:E; simpl.
  - apply String.eqb_eq in E. auto.
  - destruct (Nat.leb_spec depth (PolygonsWalker.depthToStop w)) as [H|H];
      destruct (Nat.ltb_spec (PolygonsWalker.depthToStop w) depth) as [H'|H'];
      try lia; auto.
Qed.

Lemma is_surface_type_In (s : string) :
  PolygonsWalker.is_surface_type s = true
  <-> In s ["Door"; "GroundSurface"; "RoofSurface"; "Window"].
Proof.
  unfold PolygonsWalker.is_surface_type, CChar.streq.
  rewrite !orb_true_iff, !String.eqb_eq. simpl In. intuition auto.
Qed.

Lemma is_polygon_type_In (s : string) :
  PolygonsWalker.is_polygon_type s = true <-> In s ["Polygon"; "Triangle"].
Proof.
  unfold PolygonsWalker.is_polygon_type, CChar.streq.
  rewrite !orb_true_iff, !String.eqb_eq. simpl In. intuition auto.
Qed.

Lemma polygon_type_not_surface_type (s : string) :
  In s ["Polygon"; "Triangle"] -> PolygonsWalker.is_surface_type s = false.
Proof. simpl. intros [<-|[<-|[]]]; reflexivity. Qed.

Lemma polygons_for_each_surface (depth : nat) (node : xml_node)
      (w : PolygonsWalker.t) :
  PolygonsWalker.is_surface_type (strip_namespace (Xml.name node)) = true ->
  PolygonsWalker.for_each depth node w =
  Returned true (PolygonsWalker.mk (PolygonsWalker.polygonsByType w)
                                   (strip_namespace (Xml.name node)) depth).
Proof.
  intros H. unfold PolygonsWalker.for_each. rewrite H.
  destruct (leave_defined_type_active depth w) as (_ & -> & _). reflexivity.
Qed.

Lemma polygons_for_each_polygon (depth : nat) (node : xml_node)
      (w : PolygonsWalker.t) :
  In (strip_namespace (Xml.name node)) ["Polygon"; "Triangle"] ->
  PolygonsWalker.for_each depth node w =
  Returned true
    (PolygonsWalker.mk
       (PolygonsWalker.push_back_at (active_type depth w) node
                                    (PolygonsWalker.polygonsByType w))
       (active_type depth w) (PolygonsWalker.depthToStop w)).
Proof.
  intros H. unfold PolygonsWalker.for_each.
  rewrite (polygon_type_not_surface_type _ H).
  apply is_polygon_type_In in H. rewrite H.
  destruct (leave_defined_type_active depth w) as (-> & -> & ->).
  reflexivity.
Qed.

Lemma polygons_for_each_other (depth : nat) (node : xml_node)
      (w : PolygonsWalker.t) :
  PolygonsWalker.is_surface_type (strip_namespace (Xml.name node)) = false ->
  PolygonsWalker.is_polygon_type (strip_namespace (Xml.name node)) = false ->
  PolygonsWalker.for_each depth node w =
  Returned true (PolygonsWalker.leave_defined_type depth w).
Proof.
  intros H1 H2. unfold PolygonsWalker.for_each. rewrite H1, H2. reflexivity.
Qed.

Lemma active_type_cases (depth : nat) (w : PolygonsWalker.t) :
  (PolygonsWalker.inDefinedType w ≠ EmptyString
   ∧ (PolygonsWalker.depthToStop w < depth)%nat
   ∧ active_type depth w = PolygonsWalker.inDefinedType w)
  ∨ ((PolygonsWalker.inDefinedType w = EmptyString
      ∨ (depth ≤ PolygonsWalker.depthToStop w)%nat)
     ∧ active_type depth w = EmptyString).
Proof.
  unfold active_type, CChar.streq.
  destruct (String.eqb_spec (PolygonsWalker.inDefinedType w) EmptyString); simpl.
  - right. auto.
  - destruct (Nat.ltb_spec (PolygonsWalker.depthToStop w) depth).
    + left. auto.
    + right. auto.
Qed.

(** C3. With a defined type in force, a visit of a node that is not a
    surface-type element leaves the walker with the undefined type exactly
    when the depth of the visit is at most the depth at which the type was
    entered, and with the type and its entry depth unchanged otherwise.  A
    visit of a surface-type element, at whatever depth, and so also at the
    depth of the previous one, leaves the walker with that element's type
    as defined type and the depth of the visit as entry depth: the exit
    test, made first, does not undo the entry. *)
Theorem depth_exit_precedes_type_entry
        (depth : nat) (node : xml_node) (w : PolygonsWalker.t) :
  PolygonsWalker.inDefinedType w ≠ EmptyString ->
  ∃ w',
    PolygonsWalker.for_each depth node w = Returned true w'
    ∧ (PolygonsWalker.is_surface_type (strip_namespace (Xml.name node))
       = false ->
       (PolygonsWalker.inDefinedType w' = EmptyString
        <-> (depth ≤ PolygonsWalker.depthToStop w)%nat)
       ∧ ((PolygonsWalker.depthToStop w < depth)%nat ->
          PolygonsWalker.inDefinedType w' = PolygonsWalker.inDefinedType w
          ∧ PolygonsWalker.depthToStop w' = PolygonsWalker.depthToStop w))
    ∧ (PolygonsWalker.is_surface_type (strip_namespace (Xml.name node))
       = true ->
       PolygonsWalker.inDefinedType w' = strip_namespace (Xml.name node)
       ∧ PolygonsWalker.inDefinedType w' ≠ EmptyString
       ∧ PolygonsWalker.depthToStop w' = depth).
Proof.
  intros Hin.
  destruct (PolygonsWalker.is_surface_type (strip_namespace (Xml.name node)))
    eqn:Hs.
  - rewrite polygons_for_each_surface by assumption.
    eexists. split; [reflexivity|]. split; [discriminate|].
    intros _. simpl. split; [reflexivity|]. split; [|reflexivity].
    intros E. rewrite E in Hs. discriminate Hs.
  - assert (Hw' : ∃ w',
               PolygonsWalker.for_each depth node w = Returned true w'
               ∧ PolygonsWalker.inDefinedType w' = active_type depth w
               ∧ PolygonsWalker.depthToStop w' = PolygonsWalker.depthToStop w).
    { destruct (PolygonsWalker.is_polygon_type
                  (strip_namespace (Xml.name node))) eqn:Hp.
      - apply is_polygon_type_In in Hp.
        rewrite polygons_for_each_polygon by assumption.
        eexists. split; [reflexivity|]. simpl. auto.
      - rewrite polygons_for_each_other by assumption.
        eexists. split; [reflexivity|].
        destruct (leave_defined_type_active depth w) as (-> & _ & ->). auto. }
    destruct Hw' as (w' & Hfe & Ht & Hd). exists w'.
    split; [exact Hfe|]. split; [|discriminate].
    intros _. rewrite Ht, Hd.
    destruct (active_type_cases depth w) as [(_ & Hlt & ->)|([He|Hle] & ->)].
    + split; [split; [congruence | lia] | auto].
    + contradiction.
    + split; [split; auto | lia].
Qed.

(** A ground surface met at the depth at which a roof surface was entered
    becomes the defined type at once. *)
Lemma sibling_surface_example :
  PolygonsWalker.inDefinedType (PolygonsWalker.mk ∅ "RoofSurface" 2) ≠ EmptyString
  ∧ ∃ w',
      PolygonsWalker.for_each 2 ground_surface
                              (PolygonsWalker.mk ∅ "RoofSurface" 2) =
      Returned true w'
      ∧ PolygonsWalker.inDefinedType w' = "GroundSurface"
      ∧ PolygonsWalker.depthToStop w' = 2.
Proof.
  split; [discriminate|].
  destruct (depth_exit_precedes_type_entry
              2 ground_surface (PolygonsWalker.mk ∅ "RoofSurface" 2))
    as (w' & Hfe & _ & Hs); [discriminate|].
  exists w'. split; [exact Hfe|].
  destruct (Hs eq_refl) as (Ht & _ & Hd). auto.
Defined.

(** C5. A node whose namespace-stripped name is Door, GroundSurface,
    RoofSurface or Window makes that name the defined type and the depth
    of the visit its entry depth, and files nothing.  A node whose
    namespace-stripped name is Polygon or Triangle is appended to the list
    kept under the defined type in force at its depth, which is the
    undefined key (the empty string) when none is in force; the lists under
    the other keys
    stay as they are. *)
Theorem surface_types_are_entered_and_polygons_filed
        (depth : nat) (node : xml_node) (w : PolygonsWalker.t) :
  (In (strip_namespace (Xml.name node))
      ["Door"; "GroundSurface"; "RoofSurface"; "Window"] ->
   PolygonsWalker.for_each depth node w =
   Returned true (PolygonsWalker.mk (PolygonsWalker.polygonsByType w)
                                    (strip_namespace (Xml.name node)) depth))
  ∧ (In (strip_namespace (Xml.name node)) ["Polygon"; "Triangle"] ->
     ∃ w',
       PolygonsWalker.for_each depth node w = Returned true w'
       ∧ PolygonsWalker.polygonsByType w' !! active_type depth w =
         Some (default [] (PolygonsWalker.polygonsByType w
                             !! active_type depth w) ++ [node])
       ∧ (∀ key, key ≠ active_type depth w ->
                 PolygonsWalker.polygonsByType w' !! key =
                 PolygonsWalker.polygonsByType w !! key)
       ∧ ((PolygonsWalker.inDefinedType w ≠ EmptyString
           ∧ (PolygonsWalker.depthToStop w < depth)%nat
           ∧ active_type depth w = PolygonsWalker.inDefinedType w)
          ∨ ((PolygonsWalker.inDefinedType w = EmptyString
              ∨ (depth ≤ PolygonsWalker.depthToStop w)%nat)
             ∧ active_type depth w = EmptyString))).
Proof.
  split.
  - intros H. apply polygons_for_each_surface, is_surface_type_In, H.
  - intros H. rewrite polygons_for_each_polygon by assumption.
    eexists. split; [reflexivity|]. simpl.
    unfold PolygonsWalker.push_back_at.
    split; [apply lookup_insert_eq|].
    split; [|apply active_type_cases].
    intros key Hkey. apply lookup_insert_ne. congruence.
Qed.

(** The walk over the building files the roof polygon under RoofSurface,
    the ground polygon under GroundSurface and the triangle that follows
    the two surfaces under the undefined key. *)
Lemma building_example :
  PolygonsWalker.for_each 0 roof_surface (PolygonsWalker.new 7) =
  Returned true (PolygonsWalker.mk ∅ "RoofSurface" 0)
  ∧ (∃ w',
        PolygonsWalker.for_each 1 roof_polygon
                                (PolygonsWalker.mk ∅ "RoofSurface" 0) =
        Returned true w'
        ∧ PolygonsWalker.polygonsByType w' !! "RoofSurface" =
          Some [roof_polygon])
  ∧ Walker.traverse PolygonsWalker.for_each building (PolygonsWalker.new 7) =
    Returned true
      (PolygonsWalker.mk
         (<[EmptyString := [loose_triangle]]>
            (<["GroundSurface" := [ground_polygon]]>
               (<["RoofSurface" := [roof_polygon]]> ∅)))
         EmptyString 0).
Proof.
  split; [|split].
  - apply (proj1 (surface_types_are_entered_and_polygons_filed
                    0 roof_surface (PolygonsWalker.new 7))).
    simpl. auto.
  - destruct (proj2 (surface_types_are_entered_and_polygons_filed
                       1 roof_polygon (PolygonsWalker.mk ∅ "RoofSurface" 0)))
      as (w' & Hfe & Hl & _); [simpl; auto|].
    exists w'. split; [exact Hfe | exact Hl].
  - vm_compute. reflexivity.
Defined.

(** ** Triangle and edge buffers *)

Lemma coordinate_list_length (p : ParsedPoint) :
  List.length (coordinate_list p) = 3.
Proof. destruct p as [[[a b] c]]. reflexivity. Qed.

Lemma triangle_floats_length (f : Face) :
  List.length (Regeneration.triangle_floats f) = 9.
Proof.
  destruct f as [[[a b] c] i]. unfold Regeneration.triangle_floats. simpl.
  rewrite !length_app, !coordinate_list_length. reflexivity.
Qed.

Lemma segment_floats_length (s : ParsedPoint * ParsedPoint) :
  List.length (Regeneration.segment_floats s) = 6.
Proof.
  unfold Regeneration.segment_floats.
  rewrite length_app, !coordinate_list_length. reflexivity.
Qed.

Lemma kept_iff_flags (f : Face) :
  Regeneration.kept f = true <-> info f = (true, false).
Proof.
  unfold Regeneration.kept, Regeneration.inside_exterior,
    Regeneration.inside_some_hole.
  destruct (info f) as [[|] [|]]; simpl; split; congruence.
Qed.

Lemma emit_faces_filter (faces : list Face) (triangles : list Float32.float) :
  Regeneration.emit_faces faces triangles =
  triangles
    ++ flat_map Regeneration.triangle_floats
                (List.filter (fun f => bool_decide (info f = (true, false)))
                             faces).
Proof.
  revert triangles. induction faces as [|f faces IH]; intros triangles; simpl.
  - rewrite app_nil_r. reflexivity.
  - destruct (Regeneration.kept f) eqn:K.
    + apply kept_iff_flags in K.
      rewrite (bool_decide_eq_true_2 _ K). simpl.
      rewrite IH, <- app_assoc. reflexivity.
    + rewrite bool_decide_eq_false_2; [apply IH|].
      intros K'. apply kept_iff_flags in K'. congruence.
Qed.

Lemma flat_map_length_divide {A B : Type} (k : nat) (f : A -> list B)
      (l : list A) :
  (∀ x, (k | List.length (f x))) -> (k | List.length (flat_map f l)).
Proof.
  intros H. induction l as [|x l IH]; simpl.
  - apply Nat.divide_0_r.
  - rewrite length_app. apply Nat.divide_add_r; auto.
Qed.

Lemma flat_map_length_const {A B : Type} (k : nat) (f : A -> list B)
      (l : list A) :
  (∀ x, List.length (f x) = k) ->
  List.length (flat_map f l) = k * List.length l.
Proof.
  intros H. induction l as [|x l IH]; simpl.
  - lia.
  - rewrite length_app, H, IH. lia.
Qed.

Lemma emit_faces_flags (faces : list Face) (triangles : list Float32.float) :
  Regeneration.emit_faces faces triangles =
  triangles
    ++ flat_map Regeneration.triangle_floats
         (List.filter
            (fun f => bool_decide (Regeneration.inside_exterior f = true
                                   ∧ Regeneration.inside_some_hole f = false))
            faces).
Proof.
  rewrite emit_faces_filter. do 2 f_equal.
  apply filter_ext. intros f. apply bool_decide_ext.
  unfold Regeneration.inside_exterior, Regeneration.inside_some_hole.
  destruct (info f) as [a b]. simpl. split.
  - intros H. injection H as -> ->. auto.
  - intros [-> ->]. reflexivity.
Qed.

(** C4. The two flags of a face are independent: each of the four
    combinations is the [info()] of some face.  For a polygon with a
    triangulation,
    [addTrianglesFromTheConstrainedTriangulationOfPolygon] appends to the
    buffer it is given the triangles of exactly those faces whose
    inside-exterior flag is true and whose inside-some-hole flag is false,
    in the order of the faces and nine floats each, and nothing for a face
    with one of the three other combinations; a polygon without a
    triangulation leaves the buffer as it is. *)
Theorem faces_inside_the_exterior_and_in_no_hole_are_emitted
        (triangulate : ParsedPolygon -> option (list Face))
        (polygon : ParsedPolygon) (triangles : list Float32.float) :
  (∀ a b : bool,
      ∃ f, Regeneration.inside_exterior f = a
           ∧ Regeneration.inside_some_hole f = b)
  ∧ (∀ faces,
        triangulate polygon = Some faces ->
        Regeneration.addTrianglesFromTheConstrainedTriangulationOfPolygon
          triangulate polygon triangles =
        triangles
          ++ flat_map Regeneration.triangle_floats
               (List.filter
                  (fun f =>
                     bool_decide (Regeneration.inside_exterior f = true
                                  ∧ Regeneration.inside_some_hole f = false))
                  faces)
        ∧ List.length
            (Regeneration.addTrianglesFromTheConstrainedTriangulationOfPolygon
               triangulate polygon triangles) =
          List.length triangles
          + 9 * List.length
                  (List.filter
                     (fun f =>
                        bool_decide
                          (Regeneration.inside_exterior f = true
                           ∧ Regeneration.inside_some_hole f = false))
                     faces))
  ∧ (triangulate polygon = None ->
     Regeneration.addTrianglesFromTheConstrainedTriangulationOfPolygon
       triangulate polygon triangles = triangles).
Proof.
  unfold Regeneration.addTrianglesFromTheConstrainedTriangulationOfPolygon.
  split; [|split].
  - intros a b. exists (mkFace flag_triangle (a, b)). split; reflexivity.
  - intros faces ->. rewrite emit_faces_flags. split; [reflexivity|].
    rewrite length_app, (flat_map_length_const 9); [reflexivity|].
    apply triangle_floats_length.
  - intros ->. reflexivity.
Qed.

(** Of four faces with the four flag combinations on one triangle, the
    triangle is appended once, after what the buffer held; a polygon
    without points adds nothing. *)
Lemma four_faces_example :
  Regeneration.addTrianglesFromTheConstrainedTriangulationOfPolygon
    flag_triangulation unit_square [f32_one] =
  [f32_one;
   Float32.zero; Float32.zero; Float32.zero;
   f32_one; Float32.zero; Float32.zero;
   f32_one; f32_one; Float32.zero]
  ∧ Regeneration.addTrianglesFromTheConstrainedTriangulationOfPolygon
      flag_triangulation empty_polygon [f32_one] = [f32_one].
Proof.
  split.
  - refine (eq_trans
              (proj1 (proj1 (proj2
                 (faces_inside_the_exterior_and_in_no_hole_are_emitted
                    flag_triangulation unit_square [f32_one]))
                 four_faces eq_refl)) _).
    reflexivity.
  - exact (proj2 (proj2
             (faces_inside_the_exterior_and_in_no_hole_are_emitted
                flag_triangulation empty_polygon [f32_one])) eq_refl).
Defined.

Lemma emit_faces_divide (faces : list Face) (triangles : list Float32.float) :
  (9 | List.length triangles) ->
  (9 | List.length (Regeneration.emit_faces faces triangles)).
Proof.
  intros H. rewrite emit_faces_filter, length_app.
  apply Nat.divide_add_r; [exact H|].
  apply flat_map_length_divide. intros f.
  rewrite triangle_floats_length. apply Nat.divide_refl.
Qed.

Section RegenerationInvariant.

Variable triangulate : ParsedPolygon -> option (list Face).

Lemma addTriangles_divide (polygon : ParsedPolygon)
      (triangles : list Float32.float) :
  (9 | List.length triangles) ->
  (9 | List.length
         (Regeneration.addTrianglesFromTheConstrainedTriangulationOfPolygon
            triangulate polygon triangles)).
Proof.
  intros H.
  unfold Regeneration.addTrianglesFromTheConstrainedTriangulationOfPolygon.
  destruct (triangulate polygon); [apply emit_faces_divide|]; exact H.
Qed.

Lemma triangles_of_divide (polygons : list ParsedPolygon) :
  (9 | List.length (Regeneration.triangles_of triangulate polygons)).
Proof.
  unfold Regeneration.triangles_of.
  assert (G : ∀ acc : list Float32.float,
             (9 | List.length acc) ->
             (9 | List.length
                    (fold_left
                       (fun triangles polygon =>
                          Regeneration.addTrianglesFromTheConstrainedTriangulationOfPolygon
                            triangulate polygon triangles)
                       polygons acc))).
  { induction polygons as [|p ps IH]; intros acc Hacc; simpl.
    - exact Hacc.
    - apply IH, addTriangles_divide, Hacc. }
  apply G. apply Nat.divide_0_r.
Qed.

Lemma ring_edges_divide (r : ParsedRing) :
  (6 | List.length (Regeneration.ring_edges r)).
Proof.
  unfold Regeneration.ring_edges. apply flat_map_length_divide.
  intros s. rewrite segment_floats_length. apply Nat.divide_refl.
Qed.

Lemma polygon_edges_divide (p : ParsedPolygon) :
  (6 | List.length (Regeneration.polygon_edges p)).
Proof.
  unfold Regeneration.polygon_edges. rewrite length_app.
  apply Nat.divide_add_r; [apply ring_edges_divide|].
  apply flat_map_length_divide, ring_edges_divide.
Qed.

Lemma regenerate_well_formed (o : ParsedObject) :
  Regeneration.buffers_well_formed o ->
  Regeneration.buffers_well_formed
    (Regeneration.regenerateEdgesFor
       (Regeneration.regenerateTrianglesFor triangulate o)).
Proof.
  intros [Ht _]. split; simpl.
  - intros surface buffer Hl.
    apply lookup_union_Some_raw in Hl as [Hl|[_ Hl]].
    + rewrite lookup_fmap in Hl.
      destruct (polygonsByType o !! surface) as [polygons|];
        simpl in Hl; [|discriminate].
      injection Hl as <-. apply triangles_of_divide.
    + eapply Ht, Hl.
  - apply flat_map_length_divide. intros entry.
    apply flat_map_length_divide, polygon_edges_divide.
Qed.

Lemma regenerateGeometries_well_formed (objects : list ParsedObject) :
  Forall Regeneration.buffers_well_formed objects ->
  Forall Regeneration.buffers_well_formed
         (Regeneration.regenerateGeometries triangulate objects).
Proof.
  intros H. unfold Regeneration.regenerateGeometries.
  induction H as [|o os Ho Hos IH]; simpl; constructor.
  - apply regenerate_well_formed, Ho.
  - exact IH.
Qed.

End RegenerationInvariant.

Lemma freshly_ingested_well_formed (o : ParsedObject) :
  Regeneration.freshly_ingested o -> Regeneration.buffers_well_formed o.
Proof.
  intros [Ht He]. split.
  - intros surface buffer Hl. rewrite Ht, lookup_empty in Hl. discriminate.
  - rewrite He. apply Nat.divide_0_r.
Qed.

(** C8. Starting from objects as ingestion leaves them (no buffer yet),
    after any number of regenerations, whatever faces the triangulation
    yields, every triangle buffer of every object has a length that is a
    multiple of 9 and every edge buffer a length that is a multiple
    of 6. *)
Theorem regenerated_buffers_are_multiples_of_9_and_6
        (triangulate : ParsedPolygon -> option (list Face))
        (objects : list ParsedObject) (n : nat) :
  Forall Regeneration.freshly_ingested objects ->
  Forall (fun o =>
            (∀ surface buffer,
                trianglesByType o !! surface = Some buffer ->
                (9 | List.length buffer))
            ∧ (6 | List.length (edges o)))
         (Nat.iter (S n) (Regeneration.regenerateGeometries triangulate)
                   objects).
Proof.
  intros Hfresh.
  assert (H0 : Forall Regeneration.buffers_well_formed objects).
  { eapply Forall_impl; [exact Hfresh|].
    intros o. apply freshly_ingested_well_formed. }
  change (Forall Regeneration.buffers_well_formed
                 (Nat.iter (S n) (Regeneration.regenerateGeometries triangulate)
                           objects)).
  generalize (S n) as k. intros k. induction k as [|k IH]; simpl.
  - exact H0.
  - apply regenerateGeometries_well_formed, IH.
Qed.

(** The square roof, regenerated twice with the fan triangulation: the
    roof buffer holds two triangles, the edge buffer four segments. *)
Lemma square_roof_example :
  Forall Regeneration.freshly_ingested [square_roof]
  ∧ Forall (fun o =>
              (∀ surface buffer,
                  trianglesByType o !! surface = Some buffer ->
                  (9 | List.length buffer))
              ∧ (6 | List.length (edges o)))
           (Nat.iter 2 (Regeneration.regenerateGeometries fan_triangulation)
                     [square_roof]).
Proof.
  assert (Hfresh : Forall Regeneration.freshly_ingested [square_roof]).
  { repeat constructor. }
  split; [exact Hfresh|].
  exact (regenerated_buffers_are_multiples_of_9_and_6
           fan_triangulation [square_roof] 1 Hfresh).
Defined.

(** * Further properties of the walkers *)

(** ** [PointsWalker]: empty text, text nodes, earlier points *)

Lemma first_text_after_elements (before after : list xml_node)
      (text : xml_node) :
  Forall (fun c => Xml.is_text_node c = false) before ->
  Xml.is_text_node text = true ->
  Xml.first_text (before ++ text :: after) = Xml.value text.
Proof.
  intros Hb Ht. induction Hb as [|c cs Hc _ IH]; simpl.
  - rewrite Ht. reflexivity.
  - rewrite Hc. exact IH.
Qed.

Lemma assign_back_app (i : nat) (v : Float32.float)
      (base l : list ParsedPoint) :
  l ≠ [] ->
  PointsWalker.assign_back i v (base ++ l) =
  base ++ PointsWalker.assign_back i v l.
Proof.
  intros Hl. induction base as [|b base IH]; [reflexivity|].
  change ((b :: base) ++ l) with (b :: (base ++ l)).
  destruct (base ++ l) as [|x xs] eqn:E.
  - destruct base; [simpl in E; contradiction | discriminate].
  - change (PointsWalker.assign_back i v (b :: x :: xs))
      with (b :: PointsWalker.assign_back i v (x :: xs)).
    rewrite IH. reflexivity.
Qed.

Lemma assign_back_nonempty (i : nat) (v : Float32.float)
      (l : list ParsedPoint) :
  l ≠ [] -> PointsWalker.assign_back i v l ≠ [].
Proof.
  destruct l as [|p [|q l]]; [contradiction | discriminate | discriminate].
Qed.

(** The loop on a list of points with [base] in front, from the loop
    without it. *)
Lemma read_onto (ue : bool) (toks : list string) :
  ∀ cc base l cout,
    (cc ≠ 0 -> l ≠ []) ->
    PointsWalker.read_coordinates ue toks cc (base ++ l) cout =
    onto base cout (PointsWalker.read_coordinates ue toks cc l []).
Proof.
  induction toks as [|tok toks IH]; intros cc base l cout Hl.
  - simpl. destruct cc as [|cc]; reflexivity.
  - simpl. destruct (0 <? String.length tok)%nat; [|apply IH, Hl].
    destruct (stof ue tok) as [v| |].
    + destruct cc as [|cc].
      * change ((0 =? 0)%nat) with true. cbv iota.
        rewrite <- app_assoc, assign_back_app by (destruct l; discriminate).
        apply IH. intros _. apply assign_back_nonempty.
        destruct l; discriminate.
      * change ((S cc =? 0)%nat) with false. cbv iota.
        rewrite assign_back_app by (apply Hl; discriminate).
        apply IH. intros _. apply assign_back_nonempty, Hl. discriminate.
    + reflexivity.
    + simpl. rewrite app_nil_r.
      destruct (cc =? 0)%nat; [rewrite <- app_assoc|]; reflexivity.
Qed.

Lemma for_each_onto (ue : bool) (depth : nat) (node : xml_node)
      (w : PointsWalker.t) (cout : ostream) :
  PointsWalker.for_each ue depth node (w, cout) =
  onto (PointsWalker.points w) cout
       (PointsWalker.for_each ue depth node (PointsWalker.new, [])).
Proof.
  unfold PointsWalker.for_each.
  destruct (PointsWalker.is_position_list node); cbn [fst snd].
  - rewrite <- (app_nil_r (PointsWalker.points w)) at 1.
    apply read_onto. congruence.
  - destruct w as [pts]. simpl. rewrite app_nil_r. reflexivity.
Qed.

(** On an empty output the loop ends in one of three ways. *)
Lemma read_shape (ue : bool) (toks : list string) :
  ∀ cc l,
    (∃ q, PointsWalker.read_coordinates ue toks cc l [] =
          Returned true (PointsWalker.mk q, []))
    ∨ (∃ msg, PointsWalker.read_coordinates ue toks cc l [] =
              Returned true (PointsWalker.mk [], [msg]))
    ∨ (∃ q, PointsWalker.read_coordinates ue toks cc l [] =
            Raised std_out_of_range (PointsWalker.mk q, [])).
Proof.
  induction toks as [|tok toks IH]; intros cc l; simpl.
  - destruct cc; simpl; eauto.
  - destruct (0 <? String.length tok)%nat; [|apply IH].
    destruct (stof ue tok); eauto.
Qed.

Lemma for_each_shape (ue : bool) (depth : nat) (node : xml_node) :
  (∃ q, PointsWalker.for_each ue depth node (PointsWalker.new, []) =
        Returned true (PointsWalker.mk q, []))
  ∨ (∃ msg, PointsWalker.for_each ue depth node (PointsWalker.new, []) =
            Returned true (PointsWalker.mk [], [msg]))
  ∨ (∃ q, PointsWalker.for_each ue depth node (PointsWalker.new, []) =
          Raised std_out_of_range (PointsWalker.mk q, [])).
Proof.
  unfold PointsWalker.for_each.
  destruct (PointsWalker.is_position_list node); cbn [fst snd].
  - apply read_shape.
  - left. exists []. reflexivity.
Qed.

Lemma run_cons_returned {S : Type}
      (for_each : nat -> xml_node -> S -> outcome S)
      (d : nat) (n : xml_node) (vs : list (nat * xml_node)) (s s' : S) :
  for_each d n s = Returned true s' ->
  Walker.run for_each ((d, n) :: vs) s = Walker.run for_each vs s'.
Proof. intros H. simpl. rewrite H. reflexivity. Qed.

(** X1. A position element whose text is empty or all whitespace, or
    which has no text at all, is read without any effect: the points and
    the output stay as they are (no token, so neither message). *)
Theorem blank_position_list_changes_nothing
        (ue : bool) (depth : nat) (node : xml_node)
        (s : PointsWalker.t * ostream) :
  PointsWalker.is_position_list node = true ->
  IStream.skipws (Xml.child_value node) = EmptyString ->
  PointsWalker.for_each ue depth node s = Returned true s.
Proof.
  intros Hpos Hblank.
  rewrite points_for_each_position_list by assumption.
  unfold IStream.words. rewrite words_from_skipws, Hblank.
  destruct s as [[pts] cout]. reflexivity.
Qed.

(** An element without children and one with blanks and line ends only. *)
Lemma blank_position_list_example :
  PointsWalker.for_each true 0 (Xml.element "gml:posList" [])
                        (PointsWalker.mk [ParsedPoint_new], ["earlier"]) =
  Returned true (PointsWalker.mk [ParsedPoint_new], ["earlier"])
  ∧ PointsWalker.for_each true 0
      (Xml.element "gml:pos" [Xml.pcdata "
   "])
      (PointsWalker.mk [ParsedPoint_new], ["earlier"]) =
    Returned true (PointsWalker.mk [ParsedPoint_new], ["earlier"]).
Proof.
  split; apply blank_position_list_changes_nothing; reflexivity.
Defined.

(** X2. Of the children of a position element only the first text node
    (PCDATA or CDATA) is read: what follows it, further text included, has
    no influence on the call. *)
Theorem only_the_first_text_child_is_read
        (ue : bool) (depth : nat) (t : xml_node_type) (name value : string)
        (before after : list xml_node) (text : xml_node)
        (s : PointsWalker.t * ostream) :
  Forall (fun c => Xml.is_text_node c = false) before ->
  Xml.is_text_node text = true ->
  PointsWalker.for_each ue depth
                        (XmlNode t name value (before ++ text :: after)) s =
  PointsWalker.for_each ue depth (XmlNode t name value [text]) s.
Proof.
  intros Hb Ht. unfold PointsWalker.for_each, PointsWalker.is_position_list.
  unfold Xml.child_value. cbn [Xml.name Xml.children].
  rewrite (first_text_after_elements before after text Hb Ht).
  assert (H1 : Xml.first_text [text] = Xml.value text)
    by (simpl; rewrite Ht; reflexivity).
  rewrite H1. reflexivity.
Qed.

(** The text "4 5 6" after the nested element gives no point. *)
Lemma first_text_child_example :
  PointsWalker.for_each true 0 split_position_list (PointsWalker.new, []) =
  Returned true
    (PointsWalker.mk
       [mkParsedPoint (S754_finite false 8388608 (-23),
                       S754_finite false 8388608 (-22),
                       S754_finite false 12582912 (-22))], []).
Proof.
  etransitivity.
  - exact (only_the_first_text_child_is_read
             true 0 node_element "gml:posList" EmptyString []
             [Xml.element "x" []; Xml.pcdata "4 5 6"] (Xml.pcdata "1 2 3")
             (PointsWalker.new, []) (Forall_nil_2 _) eq_refl).
  - vm_compute. reflexivity.
Defined.

(** X3. A call never returns [false], never changes or removes what is
    already in the output, writes at most one line, and gives up points
    the walker already holds only when it returns after writing that
    line: if nothing is written, the earlier points are still there, in
    front of the new ones. *)
Theorem points_are_discarded_only_with_a_diagnostic
        (ue : bool) (depth : nat) (node : xml_node)
        (w : PointsWalker.t) (cout : ostream) :
  match PointsWalker.for_each ue depth node (w, cout) with
  | Returned go_on (w', cout') =>
      go_on = true
      ∧ ((cout' = cout
          ∧ ∃ q, PointsWalker.points w' = PointsWalker.points w ++ q)
         ∨ (∃ msg, cout' = cout ++ [msg]
                   ∧ PointsWalker.points w' = []))
  | Raised e (w', cout') =>
      cout' = cout
      ∧ ∃ q, PointsWalker.points w' = PointsWalker.points w ++ q
  end.
Proof.
  rewrite for_each_onto.
  destruct (for_each_shape ue depth node)
    as [[q ->]|[[msg ->]|[q ->]]]; simpl.
  - split; [reflexivity|]. left. eauto.
  - split; [reflexivity|]. right. eauto.
  - rewrite app_nil_r. eauto.
Qed.

(** On a walker that holds one point, an element with two coordinates
    discards it and writes the wrong-number line. *)
Lemma discard_example :
  match PointsWalker.for_each true 0 (pos "1 2")
                              (PointsWalker.mk [ParsedPoint_new], []) with
  | Returned go_on (w', cout') =>
      go_on = true
      ∧ ((cout' = []
          ∧ ∃ q, PointsWalker.points w' = [ParsedPoint_new] ++ q)
         ∨ (∃ msg, cout' = [] ++ [msg] ∧ PointsWalker.points w' = []))
  | Raised e (w', cout') =>
      cout' = [] ∧ ∃ q, PointsWalker.points w' = [ParsedPoint_new] ++ q
  end.
Proof.
  exact (points_are_discarded_only_with_a_diagnostic
           true 0 (pos "1 2") (PointsWalker.mk [ParsedPoint_new]) []).
Defined.

(** X4. Elements that, each on a fresh walker, return without writing
    anything add up: the walk over them leaves the points the walker had,
    followed by the points of each element in document order, and writes
    nothing. *)
Theorem quiet_elements_add_their_points_in_order
        (ue : bool) (vs : list (nat * xml_node))
        (pointss : list (list ParsedPoint))
        (w : PointsWalker.t) (cout : ostream) :
  Forall2 (fun v pts =>
             PointsWalker.for_each ue (fst v) (snd v) (PointsWalker.new, []) =
             Returned true (PointsWalker.mk pts, []))
          vs pointss ->
  Walker.run (PointsWalker.for_each ue) vs (w, cout) =
  Returned true
           (PointsWalker.mk (PointsWalker.points w ++ concat pointss), cout).
Proof.
  intros H. revert w. induction H as [|[d n] pts vs pointss Hn _ IH];
    intros [base].
  - simpl. rewrite app_nil_r. reflexivity.
  - simpl Walker.run. rewrite for_each_onto. simpl in Hn. rewrite Hn.
    simpl. rewrite IH. simpl. rewrite app_assoc. reflexivity.
Qed.

(** A ring written as three [gml:pos] elements inside a [gml:LinearRing]. *)
Lemma three_positions_example :
  Walker.run (PointsWalker.for_each true)
             [(0, pos "0 0 0"); (0, pos "1 0 0"); (0, pos "1 1 0")]
             (PointsWalker.new, []) =
  Returned true
    (PointsWalker.mk
       [mkParsedPoint (Float32.zero, Float32.zero, Float32.zero);
        mkParsedPoint (f32_one, Float32.zero, Float32.zero);
        mkParsedPoint (f32_one, f32_one, Float32.zero)], []).
Proof.
  refine (quiet_elements_add_their_points_in_order
            true _
            [[mkParsedPoint (Float32.zero, Float32.zero, Float32.zero)];
             [mkParsedPoint (f32_one, Float32.zero, Float32.zero)];
             [mkParsedPoint (f32_one, f32_one, Float32.zero)]]
            PointsWalker.new [] _).
  repeat constructor; vm_compute; reflexivity.
Defined.

(** X5. A walk over nodes none of whose position lists holds a token out
    of float range runs to its end and returns [true], whatever else the
    texts hold; what it writes comes after what was written before. *)
Theorem walk_without_out_of_range_token_completes
        (ue : bool) (vs : list (nat * xml_node))
        (w : PointsWalker.t) (cout : ostream) :
  Forall (fun v =>
            PointsWalker.is_position_list (snd v) = true ->
            Forall (fun tok => stof ue tok ≠ stof_out_of_range)
                   (IStream.words (Xml.child_value (snd v))))
         vs ->
  ∃ w' out,
    Walker.run (PointsWalker.for_each ue) vs (w, cout) =
    Returned true (w', cout ++ out).
Proof.
  intros H. revert w cout.
  induction H as [|[d n] vs Hn _ IH]; intros w cout.
  - exists w, []. simpl. rewrite app_nil_r. reflexivity.
  - simpl in Hn.
    destruct (PointsWalker.is_position_list n) eqn:Hpos.
    + pose proof (points_for_each_position_list ue d n (w, cout) Hpos) as Hfe.
      cbn [fst snd] in Hfe.
      destruct (read_contained ue _ (words_nonempty _) (Hn eq_refl) 0
                  (PointsWalker.points w) cout)
        as [[msg Hr] | [_ [pts' Hr]]]; rewrite Hr in Hfe;
        rewrite (run_cons_returned _ _ _ _ _ _ Hfe).
      * destruct (IH (PointsWalker.mk []) (cout ++ [msg]))
          as (w' & out & Hrun).
        exists w', (msg :: out). rewrite <- app_assoc in Hrun. exact Hrun.
      * apply IH.
    + rewrite (run_cons_returned _ d n vs (w, cout) (w, cout)); [apply IH|].
      unfold PointsWalker.for_each. rewrite Hpos. reflexivity.
Qed.

(** A ring with a malformed element between two good ones. *)
Lemma malformed_element_example :
  ∃ w' out,
    Walker.run (PointsWalker.for_each true)
               [(0, pos "0 0 0"); (0, pos "x y z"); (0, pos "1 1")]
               (PointsWalker.new, []) =
    Returned true (w', [] ++ out).
Proof.
  apply walk_without_out_of_range_token_completes.
  repeat (apply Forall_cons_2;
          [intros _; cbn [snd]; words_of_text;
           repeat (apply Forall_cons_2; [vm_compute; discriminate|]);
           apply Forall_nil_2 |]).
  apply Forall_nil_2.
Defined.

(** ** [PolygonsWalker]: what is filed, and where *)

Lemma polygons_for_each_step (depth : nat) (node : xml_node)
      (w : PolygonsWalker.t) :
  PolygonsWalker.for_each depth node w =
  Returned true (polygons_step depth node w).
Proof.
  unfold polygons_step, PolygonsWalker.for_each.
  destruct (PolygonsWalker.is_surface_type _); [reflexivity|].
  destruct (PolygonsWalker.is_polygon_type _); reflexivity.
Qed.

(** The three cases of a call, on the fields of the walker. *)
Lemma polygons_step_cases (depth : nat) (node : xml_node)
      (w : PolygonsWalker.t) :
  (is_surface_node node = true
   ∧ polygons_step depth node w =
     PolygonsWalker.mk (PolygonsWalker.polygonsByType w)
                       (strip_namespace (Xml.name node)) depth)
  ∨ (is_surface_node node = false ∧ is_polygon_node node = true
     ∧ polygons_step depth node w =
       PolygonsWalker.mk
         (PolygonsWalker.push_back_at (active_type depth w) node
                                      (PolygonsWalker.polygonsByType w))
         (active_type depth w) (PolygonsWalker.depthToStop w))
  ∨ (is_surface_node node = false ∧ is_polygon_node node = false
     ∧ polygons_step depth node w =
       PolygonsWalker.mk (PolygonsWalker.polygonsByType w)
                         (active_type depth w) (PolygonsWalker.depthToStop w)).
Proof.
  unfold polygons_step, is_surface_node, is_polygon_node.
  destruct (PolygonsWalker.is_surface_type (strip_namespace (Xml.name node)))
    eqn:Hs.
  - left. rewrite polygons_for_each_surface by assumption. auto.
  - right.
    destruct (PolygonsWalker.is_polygon_type (strip_namespace (Xml.name node)))
      eqn:Hp.
    + left. apply is_polygon_type_In in Hp.
      rewrite polygons_for_each_polygon by assumption. auto.
    + right. rewrite polygons_for_each_other by assumption.
      destruct (leave_defined_type_active depth w) as (H1 & H2 & H3).
      destruct (PolygonsWalker.leave_defined_type depth w) as [m t d].
      simpl in *. subst. auto.
Qed.

Lemma polygons_run_fold (vs : list (nat * xml_node)) (w : PolygonsWalker.t) :
  Walker.run PolygonsWalker.for_each vs w =
  Returned true
           (fold_left (fun w v => polygons_step (fst v) (snd v) w) vs w).
Proof. apply run_total. intros d n s. apply polygons_for_each_step. Qed.

Lemma active_type_agree (depth : nat) (w1 w2 : PolygonsWalker.t) :
  PolygonsWalker.inDefinedType w1 = PolygonsWalker.inDefinedType w2 ->
  (PolygonsWalker.inDefinedType w1 ≠ EmptyString ->
   PolygonsWalker.depthToStop w1 = PolygonsWalker.depthToStop w2) ->
  active_type depth w1 = active_type depth w2.
Proof.
  intros Ht Hd. unfold active_type, CChar.streq. rewrite <- Ht.
  destruct (String.eqb_spec (PolygonsWalker.inDefinedType w1) EmptyString);
    [reflexivity|].
  rewrite (Hd n). reflexivity.
Qed.

Lemma active_type_defined (depth : nat) (w : PolygonsWalker.t) :
  active_type depth w ≠ EmptyString ->
  PolygonsWalker.inDefinedType w ≠ EmptyString
  ∧ active_type depth w = PolygonsWalker.inDefinedType w.
Proof.
  destruct (active_type_cases depth w) as [(H1 & _ & H2)|(_ & H)].
  - auto.
  - intros C. contradiction.
Qed.

(** Two walkers that differ at most in a [depthToStop] that is not in
    use stay so. *)
Lemma polygons_step_agree (depth : nat) (node : xml_node)
      (w1 w2 : PolygonsWalker.t) :
  PolygonsWalker.polygonsByType w1 = PolygonsWalker.polygonsByType w2 ->
  PolygonsWalker.inDefinedType w1 = PolygonsWalker.inDefinedType w2 ->
  (PolygonsWalker.inDefinedType w1 ≠ EmptyString ->
   PolygonsWalker.depthToStop w1 = PolygonsWalker.depthToStop w2) ->
  PolygonsWalker.polygonsByType (polygons_step depth node w1) =
  PolygonsWalker.polygonsByType (polygons_step depth node w2)
  ∧ PolygonsWalker.inDefinedType (polygons_step depth node w1) =
    PolygonsWalker.inDefinedType (polygons_step depth node w2)
  ∧ (PolygonsWalker.inDefinedType (polygons_step depth node w1) ≠ EmptyString ->
     PolygonsWalker.depthToStop (polygons_step depth node w1) =
     PolygonsWalker.depthToStop (polygons_step depth node w2)).
Proof.
  intros Hm Ht Hd.
  pose proof (active_type_agree depth w1 w2 Ht Hd) as Ha.
  destruct (polygons_step_cases depth node w1)
    as [(S1 & ->)|[(S1 & P1 & ->)|(S1 & P1 & ->)]];
    destruct (polygons_step_cases depth node w2)
    as [(S2 & ->)|[(S2 & P2 & ->)|(S2 & P2 & ->)]];
    try congruence; simpl; rewrite <- ?Ha, <- ?Hm.
  - auto.
  - split; [reflexivity|]. split; [reflexivity|].
    intros H. apply Hd, (active_type_defined depth w1 H).
  - split; [reflexivity|]. split; [reflexivity|].
    intros H. apply Hd, (active_type_defined depth w1 H).
Qed.

Lemma polygons_fold_agree (vs : list (nat * xml_node)) :
  ∀ w1 w2,
    PolygonsWalker.polygonsByType w1 = PolygonsWalker.polygonsByType w2 ->
    PolygonsWalker.inDefinedType w1 = PolygonsWalker.inDefinedType w2 ->
    (PolygonsWalker.inDefinedType w1 ≠ EmptyString ->
     PolygonsWalker.depthToStop w1 = PolygonsWalker.depthToStop w2) ->
    let r1 := fold_left (fun w v => polygons_step (fst v) (snd v) w) vs w1 in
    let r2 := fold_left (fun w v => polygons_step (fst v) (snd v) w) vs w2 in
    PolygonsWalker.polygonsByType r1 = PolygonsWalker.polygonsByType r2
    ∧ PolygonsWalker.inDefinedType r1 = PolygonsWalker.inDefinedType r2
    ∧ (PolygonsWalker.inDefinedType r1 ≠ EmptyString ->
       PolygonsWalker.depthToStop r1 = PolygonsWalker.depthToStop r2).
Proof.
  induction vs as [|[d n] vs IH]; intros w1 w2 Hm Ht Hd; simpl.
  - auto.
  - destruct (polygons_step_agree d n w1 w2 Hm Ht Hd) as (Hm' & Ht' & Hd').
    apply IH; assumption.
Qed.

(** X6. [depthToStop] has no initialiser, but the value it happens to
    hold is never used: two walks over the same tree that start with
    different values in it file the same nodes under the same keys and end
    in the same defined type, with the same entry depth when a type is
    defined. *)
Theorem uninitialised_depthToStop_is_never_used
        (start : xml_node) (indeterminate1 indeterminate2 : nat) :
  ∃ w1 w2,
    Walker.traverse PolygonsWalker.for_each start
                    (PolygonsWalker.new indeterminate1) = Returned true w1
    ∧ Walker.traverse PolygonsWalker.for_each start
                      (PolygonsWalker.new indeterminate2) = Returned true w2
    ∧ PolygonsWalker.polygonsByType w1 = PolygonsWalker.polygonsByType w2
    ∧ PolygonsWalker.inDefinedType w1 = PolygonsWalker.inDefinedType w2
    ∧ (PolygonsWalker.inDefinedType w1 ≠ EmptyString ->
       PolygonsWalker.depthToStop w1 = PolygonsWalker.depthToStop w2).
Proof.
  unfold Walker.traverse. rewrite !polygons_run_fold.
  eexists. eexists. split; [reflexivity|]. split; [reflexivity|].
  apply polygons_fold_agree; simpl; congruence.
Qed.

(** Two walks over the building, with 0 and with 1000 in the field. *)
Lemma uninitialised_depthToStop_example :
  ∃ w1 w2,
    Walker.traverse PolygonsWalker.for_each building (PolygonsWalker.new 0)
    = Returned true w1
    ∧ Walker.traverse PolygonsWalker.for_each building
                      (PolygonsWalker.new 1000) = Returned true w2
    ∧ PolygonsWalker.polygonsByType w1 = PolygonsWalker.polygonsByType w2
    ∧ PolygonsWalker.inDefinedType w1 = PolygonsWalker.inDefinedType w2
    ∧ (PolygonsWalker.inDefinedType w1 ≠ EmptyString ->
       PolygonsWalker.depthToStop w1 = PolygonsWalker.depthToStop w2).
Proof.
  exact (uninitialised_depthToStop_is_never_used building 0 1000).
Defined.

Lemma surface_node_not_polygon_node (n : xml_node) :
  is_surface_node n = true -> is_polygon_node n = false.
Proof.
  unfold is_surface_node, is_polygon_node. intros H.
  apply is_surface_type_In in H. simpl in H.
  destruct H as [<-|[<-|[<-|[<-|[]]]]]; reflexivity.
Qed.

Lemma push_back_at_filed (key : string) (n x : xml_node)
      (m : gmap string (list xml_node)) :
  filed (PolygonsWalker.push_back_at key n m) x <-> filed m x ∨ x = n.
Proof.
  unfold filed, PolygonsWalker.push_back_at. split.
  - intros (k & l & Hl & Hx). destruct (decide (key = k)) as [<-|Hk].
    + rewrite lookup_insert_eq in Hl. injection Hl as <-.
      apply in_app_or in Hx as [Hx|[<-|[]]]; [|auto].
      left. destruct (m !! key) as [l0|] eqn:E; [eauto | contradiction].
    + rewrite lookup_insert_ne in Hl by assumption. eauto.
  - intros [(k & l & Hl & Hx)| ->].
    + destruct (decide (key = k)) as [<-|Hk].
      * exists key, (l ++ [n]). rewrite lookup_insert_eq, Hl. simpl.
        split; [reflexivity|]. apply in_or_app. auto.
      * exists k, l. rewrite lookup_insert_ne by assumption. auto.
    + eexists key, _. rewrite lookup_insert_eq. split; [reflexivity|].
      apply in_or_app. right. simpl. auto.
Qed.

Lemma polygons_fold_filed (vs : list (nat * xml_node)) :
  ∀ w x,
    filed (PolygonsWalker.polygonsByType
             (fold_left (fun w v => polygons_step (fst v) (snd v) w) vs w)) x
    <-> filed (PolygonsWalker.polygonsByType w) x
        ∨ In x (List.filter is_polygon_node (map snd vs)).
Proof.
  induction vs as [|[d n] vs IH]; intros w x; simpl.
  - tauto.
  - rewrite IH.
    destruct (polygons_step_cases d n w)
      as [(S1 & ->)|[(S1 & P1 & ->)|(S1 & P1 & ->)]]; simpl.
    + rewrite (surface_node_not_polygon_node n S1). reflexivity.
    + rewrite P1, push_back_at_filed. simpl. intuition auto.
    + rewrite P1. reflexivity.
Qed.

(** X7. After a walk from a fresh walker the nodes in the lists of
    [polygonsByType] are exactly the descendants of the start node whose
    namespace-stripped name is Polygon or Triangle: none is left out,
    whatever the nesting, and nothing else is filed. *)
Theorem filed_nodes_are_the_polygon_descendants
        (start : xml_node) (indeterminate : nat) :
  ∃ w,
    Walker.traverse PolygonsWalker.for_each start
                    (PolygonsWalker.new indeterminate) = Returned true w
    ∧ ∀ node,
        (∃ key l, PolygonsWalker.polygonsByType w !! key = Some l
                  ∧ In node l)
        <-> In node (Xml.descendants start)
            ∧ In (strip_namespace (Xml.name node)) ["Polygon"; "Triangle"].
Proof.
  unfold Walker.traverse. rewrite polygons_run_fold.
  eexists. split; [reflexivity|]. intros node.
  pose proof (polygons_fold_filed (Xml.visits start)
                (PolygonsWalker.new indeterminate) node) as H.
  unfold filed in H. rewrite H. clear H. simpl.
  rewrite filter_In. unfold is_polygon_node. rewrite is_polygon_type_In.
  unfold Xml.descendants. split.
  - intros [(k & l & Hl & _)|H]; [|exact H].
    rewrite lookup_empty in Hl. discriminate.
  - auto.
Qed.

(** In the building, the three polygons and nothing else. *)
Lemma filed_nodes_example :
  ∃ w,
    Walker.traverse PolygonsWalker.for_each building (PolygonsWalker.new 0)
    = Returned true w
    ∧ ∀ node,
        (∃ key l, PolygonsWalker.polygonsByType w !! key = Some l
                  ∧ In node l)
        <-> In node (Xml.descendants building)
            ∧ In (strip_namespace (Xml.name node)) ["Polygon"; "Triangle"].
Proof.
  exact (filed_nodes_are_the_polygon_descendants building 0).
Defined.

Lemma polygons_step_keys (depth : nat) (node : xml_node)
      (w : PolygonsWalker.t) :
  (PolygonsWalker.inDefinedType w = EmptyString
   ∨ PolygonsWalker.is_surface_type (PolygonsWalker.inDefinedType w) = true) ->
  (∀ k l, PolygonsWalker.polygonsByType w !! k = Some l ->
          (k = EmptyString ∨ PolygonsWalker.is_surface_type k = true)
          ∧ l ≠ []) ->
  (PolygonsWalker.inDefinedType (polygons_step depth node w) = EmptyString
   ∨ PolygonsWalker.is_surface_type
       (PolygonsWalker.inDefinedType (polygons_step depth node w)) = true)
  ∧ (∀ k l,
        PolygonsWalker.polygonsByType (polygons_step depth node w) !! k
        = Some l ->
        (k = EmptyString ∨ PolygonsWalker.is_surface_type k = true)
        ∧ l ≠ []).
Proof.
  intros Ht Hm.
  assert (Ha : active_type depth w = EmptyString
               ∨ PolygonsWalker.is_surface_type (active_type depth w) = true).
  { destruct (active_type_cases depth w) as [(_ & _ & ->)|(_ & ->)]; auto. }
  destruct (polygons_step_cases depth node w)
    as [(S1 & ->)|[(S1 & P1 & ->)|(S1 & P1 & ->)]]; simpl.
  - split; [right; exact S1 | exact Hm].
  - split; [exact Ha|]. intros k l Hl.
    unfold PolygonsWalker.push_back_at in Hl.
    destruct (decide (active_type depth w = k)) as [<-|Hk].
    + rewrite lookup_insert_eq in Hl. injection Hl as <-.
      split; [exact Ha|]. intros C. apply app_eq_nil in C as [_ C].
      discriminate C.
    + rewrite lookup_insert_ne in Hl by assumption. eapply Hm, Hl.
  - split; [exact Ha | exact Hm].
Qed.

Lemma polygons_fold_keys (vs : list (nat * xml_node)) :
  ∀ w,
    (PolygonsWalker.inDefinedType w = EmptyString
     ∨ PolygonsWalker.is_surface_type (PolygonsWalker.inDefinedType w)
       = true) ->
    (∀ k l, PolygonsWalker.polygonsByType w !! k = Some l ->
            (k = EmptyString ∨ PolygonsWalker.is_surface_type k = true)
            ∧ l ≠ []) ->
    ∀ k l,
      PolygonsWalker.polygonsByType
        (fold_left (fun w v => polygons_step (fst v) (snd v) w) vs w) !! k
      = Some l ->
      (k = EmptyString ∨ PolygonsWalker.is_surface_type k = true) ∧ l ≠ [].
Proof.
  induction vs as [|[d n] vs IH]; intros w Ht Hm; simpl.
  - exact Hm.
  - destruct (polygons_step_keys d n w Ht Hm) as [Ht' Hm'].
    apply IH; assumption.
Qed.

(** X8. After a walk from a fresh walker every key of [polygonsByType]
    is the undefined key or one of Door, GroundSurface, RoofSurface,
    Window, and no key holds an empty list: a surface type without a
    polygon in it has no entry. *)
Theorem keys_are_surface_types_with_polygons
        (start : xml_node) (indeterminate : nat) :
  ∃ w,
    Walker.traverse PolygonsWalker.for_each start
                    (PolygonsWalker.new indeterminate) = Returned true w
    ∧ ∀ key l,
        PolygonsWalker.polygonsByType w !! key = Some l ->
        In key [EmptyString; "Door"; "GroundSurface"; "RoofSurface";
                "Window"]
        ∧ l ≠ [].
Proof.
  unfold Walker.traverse. rewrite polygons_run_fold.
  eexists. split; [reflexivity|]. intros key l Hl.
  destruct (polygons_fold_keys (Xml.visits start)
              (PolygonsWalker.new indeterminate)) with (k := key) (l := l)
    as [Hk Hne].
  - left. reflexivity.
  - intros k l0 H. simpl in H. rewrite lookup_empty in H. discriminate.
  - exact Hl.
  - split; [|exact Hne]. destruct Hk as [->|Hk]; [left; reflexivity|].
    right. apply is_surface_type_In, Hk.
Qed.

(** A door without a polygon leaves no entry. *)
Lemma keys_example :
  Walker.traverse PolygonsWalker.for_each
                  (Xml.element "bldg:Building" [Xml.element "bldg:Door" []])
                  (PolygonsWalker.new 0) =
  Returned true (PolygonsWalker.mk ∅ "Door" 0).
Proof.
  destruct (keys_are_surface_types_with_polygons
              (Xml.element "bldg:Building" [Xml.element "bldg:Door" []]) 0)
    as (w & Hw & _).
  rewrite Hw. vm_compute in Hw. injection Hw as <-. reflexivity.
Defined.

Lemma subtree_depths (n : xml_node) :
  ∀ d, Forall (fun v => (d ≤ fst v)%nat) (Xml.subtree d n).
Proof.
  induction n as [t name value cs IH] using xml_node_forall_ind.
  intros d. rewrite subtree_unfold. constructor; [simpl; lia|].
  simpl Xml.children. unfold Xml.forest.
  induction IH as [|c cs Hc _ IHcs]; simpl; [constructor|].
  apply Forall_app. split; [|exact IHcs].
  eapply Forall_impl; [apply (Hc (S d))|]. simpl. intros v Hv. lia.
Qed.

Lemma forest_depths (cs : list xml_node) (d : nat) :
  Forall (fun v => (d ≤ fst v)%nat) (Xml.forest d cs).
Proof.
  unfold Xml.forest. induction cs as [|c cs IH]; simpl; [constructor|].
  apply Forall_app. split; [apply subtree_depths | exact IH].
Qed.

(** Below the depth at which a type was entered, and with no surface-type
    element on the way, every Polygon and Triangle goes under that type. *)
Lemma polygons_fold_inside (t : string) (d0 : nat)
      (vs : list (nat * xml_node)) :
  t ≠ EmptyString ->
  Forall (fun v => (d0 < fst v)%nat ∧ is_surface_node (snd v) = false) vs ->
  ∀ m,
    fold_left (fun w v => polygons_step (fst v) (snd v) w) vs
              (PolygonsWalker.mk m t d0) =
    PolygonsWalker.mk
      (fold_left (fun m p => PolygonsWalker.push_back_at t p m)
                 (List.filter is_polygon_node (map snd vs)) m)
      t d0.
Proof.
  intros Ht H. induction H as [|[d n] vs [Hd Hs] _ IH]; intros m; simpl.
  - reflexivity.
  - simpl in Hd, Hs.
    assert (Ha : active_type d (PolygonsWalker.mk m t d0) = t).
    { unfold active_type, CChar.streq. simpl.
      destruct (String.eqb_spec t EmptyString); [contradiction|].
      destruct (Nat.ltb_spec d0 d); [reflexivity | lia]. }
    destruct (polygons_step_cases d n (PolygonsWalker.mk m t d0))
      as [(S1 & _)|[(_ & P1 & ->)|(_ & P1 & ->)]];
      [congruence | |]; rewrite P1, Ha; simpl; apply IH.
Qed.

Lemma fold_push_back_lookup (t : string) (ps : list xml_node) :
  ∀ m : gmap string (list xml_node),
    fold_left (fun m p => PolygonsWalker.push_back_at t p m) ps m !! t =
    match ps with
    | [] => m !! t
    | _ => Some (default [] (m !! t) ++ ps)
    end
    ∧ ∀ key, key ≠ t ->
             fold_left (fun m p => PolygonsWalker.push_back_at t p m) ps m
               !! key = m !! key.
Proof.
  induction ps as [|p ps IH]; intros m; simpl; [auto|].
  destruct (IH (PolygonsWalker.push_back_at t p m)) as [H1 H2]. split.
  - rewrite H1. unfold PolygonsWalker.push_back_at.
    rewrite lookup_insert_eq. destruct ps; [reflexivity|].
    simpl. rewrite <- app_assoc. reflexivity.
  - intros key Hk. rewrite (H2 key Hk).
    unfold PolygonsWalker.push_back_at. apply lookup_insert_ne. congruence.
Qed.

(** X9. The part of a walk that goes through a surface-type element and
    all that lies in it, when no further surface-type element lies in it,
    appends the Polygon and Triangle nodes of the element, in document
    order, to the list under the element's type; it touches no other key,
    adds no entry when the element holds no such node, and ends with the
    element's type as defined type and its depth as entry depth. *)
Theorem polygons_in_a_surface_element_go_under_its_type
        (depth : nat) (surface : xml_node) (w : PolygonsWalker.t) :
  In (strip_namespace (Xml.name surface))
     ["Door"; "GroundSurface"; "RoofSurface"; "Window"] ->
  Forall (fun n => is_surface_node n = false) (Xml.descendants surface) ->
  ∃ w',
    Walker.run PolygonsWalker.for_each (Xml.subtree depth surface) w =
    Returned true w'
    ∧ PolygonsWalker.inDefinedType w' = strip_namespace (Xml.name surface)
    ∧ PolygonsWalker.depthToStop w' = depth
    ∧ (∀ key, key ≠ strip_namespace (Xml.name surface) ->
              PolygonsWalker.polygonsByType w' !! key =
              PolygonsWalker.polygonsByType w !! key)
    ∧ PolygonsWalker.polygonsByType w'
        !! strip_namespace (Xml.name surface) =
      match List.filter is_polygon_node (Xml.descendants surface) with
      | [] => PolygonsWalker.polygonsByType w
                !! strip_namespace (Xml.name surface)
      | polygons =>
          Some (default [] (PolygonsWalker.polygonsByType w
                              !! strip_namespace (Xml.name surface))
                  ++ polygons)
      end.
Proof.
  intros Hs Hin. apply is_surface_type_In in Hs.
  rewrite polygons_run_fold, subtree_unfold. simpl fold_left.
  unfold polygons_step at 2.
  rewrite (polygons_for_each_surface depth surface w Hs).
  assert (Hne : strip_namespace (Xml.name surface) ≠ EmptyString).
  { intros E. rewrite E in Hs. discriminate Hs. }
  rewrite polygons_fold_inside; [|exact Hne|].
  - eexists. split; [reflexivity|]. simpl.
    rewrite (forest_nodes_depth (Xml.children surface) (S depth) 0).
    fold (Xml.visits surface). fold (Xml.descendants surface).
    destruct (fold_push_back_lookup
                (strip_namespace (Xml.name surface))
                (List.filter is_polygon_node (Xml.descendants surface))
                (PolygonsWalker.polygonsByType w)) as [H1 H2].
    split; [reflexivity|]. split; [reflexivity|]. split; [exact H2|].
    rewrite H1. destruct (List.filter _ _); reflexivity.
  - apply List.Forall_forall. intros [d n] Hv. simpl. split.
    + pose proof (forest_depths (Xml.children surface) (S depth)) as Hd.
      rewrite List.Forall_forall in Hd. apply (Hd (d, n)) in Hv.
      simpl in Hv. lia.
    + rewrite List.Forall_forall in Hin. apply Hin.
      unfold Xml.descendants, Xml.visits.
      rewrite (forest_nodes_depth (Xml.children surface) 0 (S depth)).
      apply (in_map snd _ (d, n)), Hv.
Qed.

(** The roof surface of the building, met at depth 0 by a fresh walker. *)
Lemma roof_surface_example :
  ∃ w',
    Walker.run PolygonsWalker.for_each (Xml.subtree 0 roof_surface)
               (PolygonsWalker.new 0) = Returned true w'
    ∧ PolygonsWalker.inDefinedType w' = "RoofSurface"
    ∧ PolygonsWalker.polygonsByType w' !! "RoofSurface" = Some [roof_polygon].
Proof.
  destruct (polygons_in_a_surface_element_go_under_its_type
              0 roof_surface (PolygonsWalker.new 0))
    as (w' & Hrun & Ht & _ & _ & Hl).
  - simpl. auto.
  - repeat constructor.
  - exists w'. split; [exact Hrun|]. split; [exact Ht|]. exact Hl.
Defined.

(** ** [ObjectsWalker]: nested objects and matching names *)

(** A descendant is followed in document order by its own descendants. *)
Lemma descendants_split (start : xml_node) :
  ∀ n, In n (Xml.descendants start) ->
       ∃ l1 l2, Xml.descendants start = l1 ++ n :: Xml.descendants n ++ l2.
Proof.
  induction start as [t name value cs IH] using xml_node_forall_ind.
  intros n. unfold Xml.descendants at 1 2, Xml.visits.
  rewrite forest_nodes. simpl Xml.children.
  induction IH as [|c cs Hc _ IHcs]; simpl; [contradiction|].
  intros [<-|Hn].
  - exists [], (flat_map (fun c => c :: Xml.descendants c) cs). reflexivity.
  - apply in_app_or in Hn as [Hn|Hn].
    + destruct (Hc n Hn) as (a & b & E).
      exists (c :: a), (b ++ flat_map (fun c => c :: Xml.descendants c) cs).
      rewrite E. simpl. rewrite <- !app_assoc. simpl.
      rewrite <- app_assoc. reflexivity.
    + destruct (IHcs Hn) as (a & b & E).
      exists (c :: Xml.descendants c ++ a), b.
      rewrite E. simpl. rewrite <- app_assoc. reflexivity.
Qed.

(** X13. The walk does not stop at a node it collects, and it does not
    reset the list it is given: a walker that already holds objects keeps
    them in front, and a collected node is followed at once by the city
    objects that lie inside it, in document order, each of them an object
    of its own. *)
Theorem nested_objects_follow_their_parent
        (start parent : xml_node) (w : ObjectsWalker.t) :
  In parent (Xml.descendants start) ->
  In (strip_namespace (Xml.name parent)) ObjectsWalker.city_object_types ->
  ∃ l1 l2,
    Walker.traverse ObjectsWalker.for_each start w =
    Returned true
      (ObjectsWalker.mk
         (ObjectsWalker.objects w
            ++ l1
            ++ parent :: List.filter is_city_object (Xml.descendants parent)
            ++ l2)).
Proof.
  intros Hin Hp. apply is_city_object_type_In in Hp.
  destruct (descendants_split start parent Hin) as (a & b & E).
  exists (List.filter is_city_object a), (List.filter is_city_object b).
  unfold Walker.traverse.
  rewrite (run_total ObjectsWalker.for_each
             (fun _ n w =>
                if is_city_object n
                then ObjectsWalker.mk (ObjectsWalker.objects w ++ [n])
                else w)).
  - f_equal.
    pose proof (objects_fold (Xml.visits start) w) as H.
    fold (Xml.descendants start) in H. rewrite E in H.
    rewrite List.filter_app in H. cbn [List.filter] in H.
    change (ObjectsWalker.is_city_object_type
              (strip_namespace (Xml.name parent)))
      with (is_city_object parent) in Hp.
    rewrite Hp, List.filter_app in H.
    destruct (fold_left _ _ _) as [objs].
    cbn [ObjectsWalker.objects] in H. rewrite H. reflexivity.
  - intros d n s. unfold ObjectsWalker.for_each, is_city_object.
    destruct (ObjectsWalker.is_city_object_type
                (strip_namespace (Xml.name n))); reflexivity.
Qed.

(** In the city model the building part, which lies inside the building,
    comes right after it. *)
Lemma nested_objects_example :
  ∃ l1 l2,
    Walker.traverse ObjectsWalker.for_each city_model ObjectsWalker.new =
    Returned true
      (ObjectsWalker.mk
         (ObjectsWalker.objects ObjectsWalker.new
            ++ l1
            ++ building_with_part
               :: List.filter is_city_object
                              (Xml.descendants building_with_part)
            ++ l2))
    ∧ List.filter is_city_object (Xml.descendants building_with_part) =
      [building_part].
Proof.
  destruct (nested_objects_follow_their_parent
              city_model building_with_part ObjectsWalker.new)
    as (l1 & l2 & H).
  - simpl. auto.
  - simpl. auto.
  - exists l1, l2. split; [exact H | reflexivity].
Defined.

Lemma after_first_Some (c : ascii) (s rest : string) :
  CChar.after_first c s = Some rest ->
  ∃ prefix, CChar.after_first c prefix = None
            ∧ s = prefix +:+ String c rest.
Proof.
  revert rest. induction s as [|a s IH]; intros rest; simpl; [discriminate|].
  destruct (Ascii.eqb_spec a c) as [->|Hac].
  - intros H. injection H as <-. exists EmptyString. auto.
  - intros H. destruct (IH rest H) as (prefix & Hp & ->).
    exists (String a prefix). simpl.
    destruct (Ascii.eqb_spec a c); [contradiction|]. auto.
Qed.

(** X14. The names that match a type name are the type name itself and
    the type name after one prefix without a colon and a colon; the
    namespace-stripped name is what follows the first colon, so a name
    with a further colon before the type name does not match. *)
Theorem matching_names_have_at_most_one_prefix (node : xml_node) :
  is_city_object node = true
  <-> ∃ local,
        In local ObjectsWalker.city_object_types
        ∧ (Xml.name node = local
           ∨ ∃ prefix, CChar.after_first ":" prefix = None
                       ∧ Xml.name node = prefix +:+ ":" +:+ local).
Proof.
  unfold is_city_object. rewrite is_city_object_type_In. split.
  - intros H. exists (strip_namespace (Xml.name node)). split; [exact H|].
    unfold strip_namespace in *.
    destruct (CChar.after_first ":" (Xml.name node)) as [rest|] eqn:E.
    + right. apply after_first_Some in E as (prefix & Hp & E). eauto.
    + left. reflexivity.
  - intros (loc & Hl & [E|(prefix & Hp & E)]); rewrite E.
    + rewrite strip_namespace_unqualified; [exact Hl|].
      simpl in Hl.
      repeat (destruct Hl as [<-|Hl]; [reflexivity|]). contradiction.
    + rewrite strip_namespace_qualified by assumption. exact Hl.
Qed.

(** A building under the prefix [bldg] matches; under two prefixes it
    does not. *)
Lemma matching_names_example :
  is_city_object (Xml.element "bldg:Building" []) = true
  ∧ is_city_object (Xml.element "core:bldg:Building" []) = false.
Proof.
  split.
  - apply (proj2 (matching_names_have_at_most_one_prefix
                    (Xml.element "bldg:Building" []))).
    exists "Building". split; [simpl; auto|].
    right. exists "bldg". split; reflexivity.
  - reflexivity.
Defined.

(** ** [RingsWalker]: a walker that already holds rings *)

(** X15. A walk does not reset the walker it is given: the interior rings
    it held stay in front of the ones found, and the exterior ring it held
    stays when the walk meets no node named "gml:exterior". *)
Theorem rings_walker_is_not_reset
        (start : xml_node) (w : RingsWalker.t) :
  Walker.traverse RingsWalker.for_each start w =
  Returned true
    (RingsWalker.mk
       (match last (List.filter (named "gml:exterior")
                                (Xml.descendants start)) with
        | Some e => Some e
        | None => RingsWalker.exteriorRing w
        end)
       (RingsWalker.interiorRings w
          ++ List.filter (named "gml:interior") (Xml.descendants start))).
Proof.
  unfold Walker.traverse.
  rewrite (run_total RingsWalker.for_each
             (fun _ n w =>
                if named "gml:exterior" n
                then RingsWalker.mk (Some n) (RingsWalker.interiorRings w)
                else if named "gml:interior" n
                     then RingsWalker.mk (RingsWalker.exteriorRing w)
                                         (RingsWalker.interiorRings w ++ [n])
                     else w)).
  - rewrite rings_fold. reflexivity.
  - intros d n s. unfold RingsWalker.for_each, named.
    destruct (CChar.streq (Xml.name n) "gml:exterior"); [reflexivity|].
    destruct (CChar.streq (Xml.name n) "gml:interior"); reflexivity.
Qed.

(** ** [PolygonsWalker]: order, scope, nested objects *)

Lemma polygons_step_order (depth : nat) (node : xml_node)
      (w : PolygonsWalker.t) (vis : list xml_node) :
  (∀ k l, PolygonsWalker.polygonsByType w !! k = Some l -> sublist l vis) ->
  ∀ k l,
    PolygonsWalker.polygonsByType (polygons_step depth node w) !! k = Some l ->
    sublist l (vis ++ [node]).
Proof.
  intros Hm k l.
  destruct (polygons_step_cases depth node w)
    as [(_ & ->)|[(_ & _ & ->)|(_ & _ & ->)]]; simpl.
  - intros Hl. apply sublist_inserts_r, (Hm k l Hl).
  - unfold PolygonsWalker.push_back_at.
    destruct (decide (active_type depth w = k)) as [<-|Hk].
    + rewrite lookup_insert_eq. intros Hl. injection Hl as <-.
      apply sublist_app; [|reflexivity].
      destruct (PolygonsWalker.polygonsByType w !! active_type depth w)
        as [l0|] eqn:E; simpl; [apply (Hm _ _ E) | apply sublist_nil_l].
    + rewrite lookup_insert_ne by assumption.
      intros Hl. apply sublist_inserts_r, (Hm k l Hl).
  - intros Hl. apply sublist_inserts_r, (Hm k l Hl).
Qed.

Lemma polygons_fold_order (vs : list (nat * xml_node)) :
  ∀ w vis,
    (∀ k l, PolygonsWalker.polygonsByType w !! k = Some l -> sublist l vis) ->
    ∀ k l,
      PolygonsWalker.polygonsByType
        (fold_left (fun w v => polygons_step (fst v) (snd v) w) vs w) !! k
      = Some l ->
      sublist l (vis ++ map snd vs).
Proof.
  induction vs as [|[d n] vs IH]; intros w vis Hm k l; simpl.
  - rewrite app_nil_r. apply Hm.
  - intros Hl.
    change (vis ++ n :: map snd vs) with (vis ++ [n] ++ map snd vs).
    rewrite app_assoc.
    apply (IH (polygons_step d n w) (vis ++ [n])
              (polygons_step_order d n w vis Hm) k l Hl).
Qed.

(** X11. Under each key the nodes stand in document order: every list of
    [polygonsByType] is the list of descendants of the start node with
    some of them left out. *)
Theorem filed_nodes_are_in_document_order
        (start : xml_node) (indeterminate : nat) :
  ∃ w,
    Walker.traverse PolygonsWalker.for_each start
                    (PolygonsWalker.new indeterminate) = Returned true w
    ∧ ∀ key l,
        PolygonsWalker.polygonsByType w !! key = Some l ->
        sublist l (Xml.descendants start).
Proof.
  unfold Walker.traverse. rewrite polygons_run_fold.
  eexists. split; [reflexivity|]. intros key l Hl.
  apply (polygons_fold_order (Xml.visits start)
           (PolygonsWalker.new indeterminate) [] ) with (k := key);
    [|exact Hl].
  intros k l0 H. simpl in H. rewrite lookup_empty in H. discriminate.
Qed.

(** X12. What is filed in a walk over a node is also filed in a walk over
    any node that contains it: the polygons of a city object that lies
    inside another one are filed for the enclosing object as well. *)
Theorem polygons_of_a_nested_node_are_filed_for_the_enclosing_one
        (outer inner : xml_node) (indeterminate1 indeterminate2 : nat) :
  In inner (Xml.descendants outer) ->
  ∃ wo wi,
    Walker.traverse PolygonsWalker.for_each outer
                    (PolygonsWalker.new indeterminate1) = Returned true wo
    ∧ Walker.traverse PolygonsWalker.for_each inner
                      (PolygonsWalker.new indeterminate2) = Returned true wi
    ∧ ∀ node,
        (∃ key l, PolygonsWalker.polygonsByType wi !! key = Some l
                  ∧ In node l) ->
        ∃ key l, PolygonsWalker.polygonsByType wo !! key = Some l
                 ∧ In node l.
Proof.
  intros Hin. unfold Walker.traverse. rewrite !polygons_run_fold.
  eexists. eexists. split; [reflexivity|]. split; [reflexivity|].
  intros node Hi.
  apply (polygons_fold_filed (Xml.visits inner)) in Hi.
  apply (polygons_fold_filed (Xml.visits outer)). right.
  destruct Hi as [(k & l & Hl & _)|Hi];
    [simpl in Hl; rewrite lookup_empty in Hl; discriminate|].
  apply filter_In in Hi as [Hi Hp]. apply filter_In. split; [|exact Hp].
  destruct (descendants_split outer inner Hin) as (a & b & E).
  fold (Xml.descendants outer). rewrite E.
  apply in_or_app. right. right. apply in_or_app. left. exact Hi.
Qed.

(** The polygon of the building part is filed for the building too. *)
Lemma nested_polygons_example :
  ∃ wo wi,
    Walker.traverse PolygonsWalker.for_each building_with_part
                    (PolygonsWalker.new 0) = Returned true wo
    ∧ Walker.traverse PolygonsWalker.for_each building_part
                      (PolygonsWalker.new 0) = Returned true wi
    ∧ ∀ node,
        (∃ key l, PolygonsWalker.polygonsByType wi !! key = Some l
                  ∧ In node l) ->
        ∃ key l, PolygonsWalker.polygonsByType wo !! key = Some l
                 ∧ In node l.
Proof.
  apply polygons_of_a_nested_node_are_filed_for_the_enclosing_one.
  simpl. auto.
Defined.

Lemma polygons_step_deep (d1 depth : nat) (node : xml_node)
      (w : PolygonsWalker.t) :
  (PolygonsWalker.inDefinedType w ≠ EmptyString ->
   (d1 ≤ PolygonsWalker.depthToStop w)%nat) ->
  (d1 < depth)%nat ->
  PolygonsWalker.inDefinedType (polygons_step depth node w) ≠ EmptyString ->
  (d1 ≤ PolygonsWalker.depthToStop (polygons_step depth node w))%nat.
Proof.
  intros Hw Hd.
  destruct (polygons_step_cases depth node w)
    as [(_ & ->)|[(_ & _ & ->)|(_ & _ & ->)]]; simpl.
  - lia.
  - intros H. apply Hw, (active_type_defined depth w H).
  - intros H. apply Hw, (active_type_defined depth w H).
Qed.

Lemma polygons_fold_deep (d1 : nat) (vs : list (nat * xml_node)) :
  Forall (fun v => (d1 < fst v)%nat) vs ->
  ∀ w,
    (PolygonsWalker.inDefinedType w ≠ EmptyString ->
     (d1 ≤ PolygonsWalker.depthToStop w)%nat) ->
    PolygonsWalker.inDefinedType
      (fold_left (fun w v => polygons_step (fst v) (snd v) w) vs w)
    ≠ EmptyString ->
    (d1 ≤ PolygonsWalker.depthToStop
            (fold_left (fun w v => polygons_step (fst v) (snd v) w) vs w))%nat.
Proof.
  intros H. induction H as [|[d n] vs Hd _ IH]; intros w Hw; simpl.
  - exact Hw.
  - apply IH. apply polygons_step_deep; assumption.
Qed.

(** X10. The scope of a surface-type element ends with the element: a
    Polygon or Triangle met after everything that lies in the element, at
    a depth not greater than the element's, is filed under the undefined
    key, whatever the element holds (further surface types included) and
    whatever type was in force before it. *)
Theorem polygon_after_a_surface_element_is_undefined
        (w : PolygonsWalker.t) (d1 d2 : nat) (surface p : xml_node) :
  In (strip_namespace (Xml.name surface))
     ["Door"; "GroundSurface"; "RoofSurface"; "Window"] ->
  In (strip_namespace (Xml.name p)) ["Polygon"; "Triangle"] ->
  (d2 ≤ d1)%nat ->
  ∃ w1,
    Walker.run PolygonsWalker.for_each (Xml.subtree d1 surface) w =
    Returned true w1
    ∧ Walker.run PolygonsWalker.for_each
                 (Xml.subtree d1 surface ++ [(d2, p)]) w =
      Returned true
        (PolygonsWalker.mk
           (PolygonsWalker.push_back_at EmptyString p
                                        (PolygonsWalker.polygonsByType w1))
           EmptyString (PolygonsWalker.depthToStop w1)).
Proof.
  intros Hs Hp Hd. apply is_surface_type_In in Hs.
  rewrite !polygons_run_fold, fold_left_app.
  eexists. split; [reflexivity|]. f_equal. simpl fold_left at 1.
  set (w1 := fold_left _ (Xml.subtree d1 surface) w).
  assert (Hinv : PolygonsWalker.inDefinedType w1 ≠ EmptyString ->
                 (d1 ≤ PolygonsWalker.depthToStop w1)%nat).
  { subst w1. rewrite subtree_unfold. simpl fold_left.
    apply polygons_fold_deep.
    - eapply Forall_impl; [apply (forest_depths _ (S d1))|].
      simpl. intros v Hv. lia.
    - unfold polygons_step.
      rewrite (polygons_for_each_surface d1 surface w Hs). simpl. lia. }
  unfold polygons_step at 1. cbn [fst snd].
  rewrite (polygons_for_each_polygon d2 p w1 Hp).
  destruct (active_type_cases d2 w1) as [(Hne & Hlt & _)|(_ & ->)].
  - specialize (Hinv Hne). lia.
  - reflexivity.
Qed.

(** Inside a roof surface entered at depth 0: the polygon that comes
    after the window and all that lies in it, at the depth of the window,
    is filed under the undefined key. *)
Lemma scope_example :
  ∃ w1,
    Walker.run PolygonsWalker.for_each (Xml.subtree 1 roof_window)
               (PolygonsWalker.mk ∅ "RoofSurface" 0) = Returned true w1
    ∧ Walker.run PolygonsWalker.for_each
                 (Xml.subtree 1 roof_window ++ [(1, ground_polygon)])
                 (PolygonsWalker.mk ∅ "RoofSurface" 0) =
      Returned true
        (PolygonsWalker.mk
           (PolygonsWalker.push_back_at EmptyString ground_polygon
                                        (PolygonsWalker.polygonsByType w1))
           EmptyString (PolygonsWalker.depthToStop w1)).
Proof.
  apply polygon_after_a_surface_element_is_undefined;
    [simpl; auto | simpl; auto | lia].
Defined.
